(** * AsyncRedisEventBroker: a shallow embedding and its properties

    The development follows [src/apscheduler/eventbrokers/async_redis.py].
    The broker bridges a process-local event bus and a Redis pub/sub
    channel.  Its methods are coroutines that call external
    collaborators (the Redis client, the logger, the local event bus,
    the task group of the base class); they are embedded as computations
    in a small monad that

    - threads the mutable part of the broker object and the number of
      calls made so far to each external collaborator,
    - writes every external call to a chronological list of actions,
    - ends with a returned value, a raised Python exception, or fuel
      exhaustion (Python loops are unbounded; the embedding bounds them).

    The answers of the external collaborators are given by an
    environment: the outcome of the k-th call to each of them.

    Environment conventions.  Calls the source guards with [try] or with
    the retry wrapper ([subscribe], [get_message], [client.publish],
    [reconstitute_event], [publish_local]) may raise.  Calls the source
    performs unguarded inside its [except] handlers and hooks (the
    logger, [pubsub.close], [anyio.sleep], the inherited [stop]) return
    normally.  Only exceptions deriving from [Exception] are modelled;
    task cancellation is not.  The listener runs concurrently with the
    callers of [stop()]: the embedding lets another task set the stop
    flag while the listener is suspended in [get_message], where it
    spends its waiting time. *)

From Stdlib Require Import List Arith Bool Lia String.
From Stdlib.Strings Require Import Byte.
Import ListNotations.

Set Implicit Arguments.

(** ** Data *)

Definition bytes := list byte.

(** Durations, in an integral unit of time. *)
Definition duration := nat.

(** The exceptions the code distinguishes: [redis.ConnectionError] (and
    its subclasses), which the retry wrapper retries, and every other
    [Exception]. *)
Inductive exn : Type :=
| ConnectionError (detail : string)
| OtherError (detail : string).

(** [isinstance(e, ConnectionError)] *)
Definition is_connection_error (e : exn) : bool :=
  match e with
  | ConnectionError _ => true
  | OtherError _ => false
  end.

(** [apscheduler._events.Event]: an identifier and a payload. *)
Record Event : Type := mkEvent {
  event_id : string;
  event_payload : string
}.

(** The [data] entry of a message returned by [PubSub.get_message]:
    [bytes] for a published payload, something else otherwise. *)
Inductive msg_data : Type :=
| DataBytes (b : bytes)
| DataStr (s : string)
| DataInt (n : nat).

(** A message dict returned by [PubSub.get_message]. *)
Record Message : Type := mkMessage {
  msg_type : string;
  msg_channel : string;
  data : msg_data
}.

(** [apscheduler.abc.Serializer] *)
Record Serializer : Type := mkSerializer {
  serialize : Event -> bytes;
  deserialize : bytes -> option Event
}.

(** ** Tenacity: retry state and settings *)

Module Tenacity.

(** [tenacity.RetryCallState], as seen by the [stop], [wait] and
    [after] callables once an attempt has failed.  Readings of the
    wall clock are not part of the embedding. *)
Record RetryCallState : Type := mkRetryCallState {
  attempt_number : nat;
  outcome : exn
}.

(** [apscheduler.RetrySettings]: the [stop] and [wait] strategies. *)
Record RetrySettings : Type := mkRetrySettings {
  stop : RetryCallState -> bool;
  wait : RetryCallState -> duration
}.

(** [tenacity.stop_after_attempt(n)]:
    [retry_state.attempt_number >= n]. *)
Definition stop_after_attempt (n : nat) : RetryCallState -> bool :=
  fun rs => n <=? attempt_number rs.

(** [tenacity.stop_never] *)
Definition stop_never : RetryCallState -> bool := fun _ => false.

(** [tenacity.wait_fixed(d)] *)
Definition wait_fixed (d : duration) : RetryCallState -> duration := fun _ => d.

End Tenacity.
Import Tenacity.

(** ** The broker object *)

(** The attributes of [AsyncRedisEventBroker].  [client] is the
    environment below.  [_task_group] is inherited from
    [LocalAsyncEventBroker] and [instance_id] is the identity of the
    bridge used by the notification codec. *)
Record Broker : Type := mkBroker {
  serializer : Serializer;
  channel : string;
  retry_settings : RetrySettings;
  stop_check_interval : duration;
  _stopped : bool;
  _task_group : option (list string);
  instance_id : bytes
}.

(** The attrs-generated initializer:
    [_stopped: bool = attrs.field(init=False, default=True)]. *)
Definition new_broker (ser : Serializer) (ch : string) (rs : RetrySettings)
    (interval : duration) (ident : bytes) : Broker :=
  {| serializer := ser;
     channel := ch;
     retry_settings := rs;
     stop_check_interval := interval;
     _stopped := true;
     _task_group := None;
     instance_id := ident |}.

Definition set_stopped (b : bool) (self : Broker) : Broker :=
  {| serializer := serializer self;
     channel := channel self;
     retry_settings := retry_settings self;
     stop_check_interval := stop_check_interval self;
     _stopped := b;
     _task_group := _task_group self;
     instance_id := instance_id self |}.

Definition set_task_group (tg : option (list string)) (self : Broker) : Broker :=
  {| serializer := serializer self;
     channel := channel self;
     retry_settings := retry_settings self;
     stop_check_interval := stop_check_interval self;
     _stopped := _stopped self;
     _task_group := tg;
     instance_id := instance_id self |}.

(** ** External calls and the environment *)

(** One entry per external call, with the outcome of the calls that may
    raise ([None]: the call returned normally). *)
Inductive action : Type :=
| SuperStart
| SuperStop (force : bool)
| Subscribe (ch : string) (raised : option exn)
| StartSoon (name : string)
| GenerateNotification (ev : Event)
| ClientPublish (ch : string) (notification : bytes) (raised : option exn)
| GetMessage (timeout : duration) (result : exn + option Message)
| ReconstituteEvent (payload : bytes)
| PublishLocal (ev : Event) (raised : option exn)
| LogWarning (attempt : nat) (e : exn)
| LogException (e : exn)
| Sleep (d : duration)
| ClosePubSub.

(** What one call to [pubsub.get_message] does: it returns a message,
    returns [None] on timeout, or raises; while the listener is
    suspended in it another task may have called [stop()], which sets
    the stop flag. *)
Record RecvResponse : Type := mkRecv {
  recv_result : exn + option Message;
  recv_stop : bool
}.

(** The answers of the collaborators, by call number (from 0). *)
Record Env : Type := mkEnv {
  env_subscribe : nat -> option exn;
  env_publish : nat -> option exn;
  env_get_message : nat -> RecvResponse;
  env_publish_local : nat -> option exn
}.

(** The broker object and the number of calls made so far. *)
Record State : Type := mkState {
  self : Broker;
  sub_calls : nat;
  pub_calls : nat;
  recv_calls : nat;
  local_calls : nat
}.

Definition with_self (f : Broker -> Broker) (s : State) : State :=
  {| self := f (self s);
     sub_calls := sub_calls s;
     pub_calls := pub_calls s;
     recv_calls := recv_calls s;
     local_calls := local_calls s |}.

(** ** The monad of coroutines *)

Inductive Outcome (A : Type) : Type :=
| Ret (a : A)
| Raise (e : exn)
| OutOfFuel.
Arguments Raise {A} e.
Arguments OutOfFuel {A}.

Definition M (A : Type) : Type := State -> Outcome A * State * list action.

Definition ret {A} (a : A) : M A := fun s => (Ret a, s, []).

Definition raise {A} (e : exn) : M A := fun s => (Raise e, s, []).

Definition out_of_fuel {A} : M A := fun s => (OutOfFuel, s, []).

Definition bind {A B} (m : M A) (f : A -> M B) : M B :=
  fun s =>
    match m s with
    | (Ret a, s1, t1) =>
        match f a s1 with
        | (r, s2, t2) => (r, s2, t1 ++ t2)
        end
    | (Raise e, s1, t1) => (Raise e, s1, t1)
    | (OutOfFuel, s1, t1) => (OutOfFuel, s1, t1)
    end.

(** [try: m except Exception as e: handler e] *)
Definition try_except {A} (m : M A) (handler : exn -> M A) : M A :=
  fun s =>
    match m s with
    | (Raise e, s1, t1) =>
        match handler e s1 with
        | (r, s2, t2) => (r, s2, t1 ++ t2)
        end
    | other => other
    end.

Definition emit (a : action) : M unit := fun s => (Ret tt, s, [a]).

Definition get_self : M Broker := fun s => (Ret (self s), s, []).

Definition modify_self (f : Broker -> Broker) : M unit :=
  fun s => (Ret tt, with_self f s, []).

Declare Scope coro_scope.
Delimit Scope coro_scope with coro.
Notation "x <- m ;; k" := (bind m (fun x => k))
  (at level 100, m at next level, right associativity) : coro_scope.
Notation "m ;; k" := (bind m (fun _ => k))
  (at level 100, right associativity) : coro_scope.
Open Scope coro_scope.

(** ** Tenacity: the retrying loop *)

(** The part of [tenacity.AsyncRetrying] the broker configures.  The
    remaining arguments are fixed by [_retry]: [sleep=anyio.sleep] and
    [reraise=True] (when the stop condition holds, the exception of the
    last attempt is raised as it is). *)
Record AsyncRetrying : Type := mkAsyncRetrying {
  retrying_stop : RetryCallState -> bool;
  retrying_wait : RetryCallState -> duration;
  retrying_retry : exn -> bool;
  retrying_after : RetryCallState -> M unit
}.

(** [anyio.sleep(d)] *)
Definition sleep (d : duration) : M unit := emit (Sleep d).

(** [async for attempt in retrying: with attempt: body], after
    [AsyncRetrying.__anext__] and [BaseRetrying.iter] of the tenacity
    library; attempts are numbered from 1.

    Each attempt runs [body].  When it returns, the loop ends with its
    value.  When it raises [e], [AttemptManager.__exit__] stores [e] in
    the retry state and [iter] decides: if the [retry] predicate rejects
    [e], [e] is raised; otherwise [after] is called, then the [stop]
    condition is checked and, when it holds, [e] is raised; otherwise
    the loop sleeps for [wait] and makes the next attempt.  So [after]
    also runs for the failure at which the loop gives up (the hook for
    the retried failures alone is [before_sleep], which [_retry] does
    not set). *)
Fixpoint iterate {A} (fuel : nat) (r : AsyncRetrying) (attempt : nat)
    (body : M A) : M A :=
  match fuel with
  | 0 => out_of_fuel
  | S fuel' =>
      try_except body (fun e =>
        let retry_state := mkRetryCallState attempt e in
        if retrying_retry r e then
          retrying_after r retry_state;;
          if retrying_stop r retry_state then raise e
          else
            sleep (retrying_wait r retry_state);;
            iterate fuel' r (S attempt) body
        else raise e)
  end.

(** ** The methods of the broker *)

Section Methods.

(** The Redis server and the local event bus. *)
Variable env : Env.

(** [DistributedEventBrokerMixin.generate_notification] and
    [reconstitute_event]. *)
Variable generate_notification : Broker -> Event -> bytes.
Variable reconstitute_event : Broker -> bytes -> exn + option Event.

Definition outcome_of (r : option exn) : Outcome unit :=
  match r with
  | None => Ret tt
  | Some e => Raise e
  end.

(** [await pubsub.subscribe(ch)] *)
Definition subscribe (ch : string) : M unit :=
  fun s =>
    let r := env_subscribe env (sub_calls s) in
    (outcome_of r,
     {| self := self s;
        sub_calls := S (sub_calls s);
        pub_calls := pub_calls s;
        recv_calls := recv_calls s;
        local_calls := local_calls s |},
     [Subscribe ch r]).

(** [await self.client.publish(ch, notification)] *)
Definition client_publish (ch : string) (notification : bytes) : M unit :=
  fun s =>
    let r := env_publish env (pub_calls s) in
    (outcome_of r,
     {| self := self s;
        sub_calls := sub_calls s;
        pub_calls := S (pub_calls s);
        recv_calls := recv_calls s;
        local_calls := local_calls s |},
     [ClientPublish ch notification r]).

(** [await pubsub.get_message(ignore_subscribe_messages=True,
    timeout=timeout)] *)
Definition get_message (timeout : duration) : M (option Message) :=
  fun s =>
    let r := env_get_message env (recv_calls s) in
    (match recv_result r with
     | inl e => Raise e
     | inr m => Ret m
     end,
     {| self := if recv_stop r then set_stopped true (self s) else self s;
        sub_calls := sub_calls s;
        pub_calls := pub_calls s;
        recv_calls := S (recv_calls s);
        local_calls := local_calls s |},
     [GetMessage timeout (recv_result r)]).

(** [await self.publish_local(event)] *)
Definition publish_local (event : Event) : M unit :=
  fun s =>
    let r := env_publish_local env (local_calls s) in
    (outcome_of r,
     {| self := self s;
        sub_calls := sub_calls s;
        pub_calls := pub_calls s;
        recv_calls := recv_calls s;
        local_calls := S (local_calls s) |},
     [PublishLocal event r]).

(** [await pubsub.close()] *)
Definition pubsub_close : M unit := emit ClosePubSub.

(** Modelled from the spec: [LocalAsyncEventBroker.start], the
    inherited [super().start()], is missing from the sources.  The
    underlying lifecycle owns the supervised listener task; starting
    it opens an empty group of tasks. *)
Definition super_start : M unit :=
  emit SuperStart;;
  modify_self (set_task_group (Some [])).

(** Modelled from the spec: [LocalAsyncEventBroker.stop], the
    inherited [super().stop(force=force)], is missing from the
    sources.  It awaits the termination of the listener (cancelling it
    at once when [force] is set) and releases the group of tasks; on a
    broker that was never started it does nothing and does not
    fail. *)
Definition super_stop (force : bool) : M unit :=
  emit (SuperStop force);;
  modify_self (set_task_group None).

(** Modelled from the spec: [self._task_group.start_soon(f, name=name)],
    the task group of the missing base class: the task is added to the
    group and runs concurrently with the caller. *)
Definition start_soon (name : string) : M unit :=
  emit (StartSoon name);;
  modify_self (fun b =>
    set_task_group (Some (name :: match _task_group b with
                                  | Some tasks => tasks
                                  | None => []
                                  end)) b).

(** The closure [after_attempt] of [_retry]: a warning with the
    attempt number and the exception of the attempt. *)
Definition after_attempt (retry_state : RetryCallState) : M unit :=
  emit (LogWarning (attempt_number retry_state) (outcome retry_state)).

(** [AsyncRedisEventBroker._retry] *)
Definition _retry (me : Broker) : AsyncRetrying :=
  {| retrying_stop := stop (retry_settings me);
     retrying_wait := wait (retry_settings me);
     retrying_retry := is_connection_error;
     retrying_after := after_attempt |}.

(** [AsyncRedisEventBroker.stop] *)
Definition stop_broker (force : bool) : M unit :=
  modify_self (set_stopped true);;
  super_stop force.

(** [AsyncRedisEventBroker.start] *)
Definition start : M unit :=
  super_start;;
  me <- get_self;;
  try_except (subscribe (channel me))
    (fun e => stop_broker true;; raise e);;
  modify_self (set_stopped false);;
  start_soon "Redis subscriber".

(** [AsyncRedisEventBroker.publish] *)
Definition publish (fuel : nat) (event : Event) : M unit :=
  me <- get_self;;
  emit (GenerateNotification event);;
  let notification := generate_notification me event in
  iterate fuel (_retry me) 1 (client_publish (channel me) notification).

(** The suite of the [try] statement in [_listen_messages]. *)
Definition listen_try (fuel : nat) : M unit :=
  me <- get_self;;
  msg <- iterate fuel (_retry me) 1 (get_message (stop_check_interval me));;
  match msg with
  | Some m =>
      match data m with
      | DataBytes payload =>
          me' <- get_self;;
          emit (ReconstituteEvent payload);;
          match reconstitute_event me' payload with
          | inl e => raise e
          | inr (Some event) => publish_local event
          | inr None => ret tt
          end
      | _ => ret tt
      end
  | None => ret tt
  end.

(** The body of the [while] loop in [_listen_messages]. *)
Definition listen_iteration (fuel : nat) : M unit :=
  try_except (listen_try fuel)
    (fun e => emit (LogException e);; pubsub_close;; raise e).

(** [AsyncRedisEventBroker._listen_messages]: [iterations] bounds the
    iterations of the [while] loop, [fuel] the attempts of each retry
    loop. *)
Fixpoint _listen_messages (iterations fuel : nat) : M unit :=
  match iterations with
  | 0 => out_of_fuel
  | S n =>
      me <- get_self;;
      if _stopped me then ret tt
      else listen_iteration fuel;; _listen_messages n fuel
  end.

End Methods.

(** ** The notification codec *)

Fixpoint bytes_eqb (a b : bytes) : bool :=
  match a, b with
  | [], [] => true
  | x :: a', y :: b' => Byte.eqb x y && bytes_eqb a' b'
  | _, _ => false
  end.

Module Codec.

(** The length of the identifier that opens every notification. *)
Definition origin_length : nat := 16.

(** Modelled from the spec: [DistributedEventBrokerMixin.generate_notification]
    is missing from the sources.  Every outgoing notification is
    tagged with the stable identifier of the broker instance (a UUID,
    16 bytes), followed by the serialized event. *)
Definition generate_notification (me : Broker) (event : Event) : bytes :=
  instance_id me ++ serialize (serializer me) event.

(** Modelled from the spec: [DistributedEventBrokerMixin.reconstitute_event]
    is missing from the sources.  Decoding returns none when the bytes
    are malformed (too short to hold an identifier, or rejected by the
    serializer) and when the identifier is the one of the decoding
    broker; it never raises. *)
Definition reconstitute_event (me : Broker) (payload : bytes)
    : exn + option Event :=
  if List.length payload <? origin_length then inr None
  else if bytes_eqb (firstn origin_length payload) (instance_id me)
  then inr None
  else inr (deserialize (serializer me) (skipn origin_length payload)).

End Codec.

(** ** Observations on a list of actions *)

(** The calls to [client.publish], with their outcomes. *)
Definition transport_publishes (t : list action)
    : list (string * bytes * option exn) :=
  flat_map (fun a => match a with
                     | ClientPublish ch n r => [(ch, n, r)]
                     | _ => []
                     end) t.

(** The calls to [client.publish] that returned normally. *)
Definition successful_publishes (t : list action) : list (string * bytes) :=
  flat_map (fun a => match a with
                     | ClientPublish ch n None => [(ch, n)]
                     | _ => []
                     end) t.

(** The warnings of [after_attempt]: attempt number and exception. *)
Definition reported_failures (t : list action) : list (nat * exn) :=
  flat_map (fun a => match a with
                     | LogWarning i e => [(i, e)]
                     | _ => []
                     end) t.

(** The sleeps between attempts. *)
Definition waits (t : list action) : list duration :=
  flat_map (fun a => match a with
                     | Sleep d => [d]
                     | _ => []
                     end) t.

(** The events handed to [publish_local]. *)
Definition local_deliveries (t : list action) : list Event :=
  flat_map (fun a => match a with
                     | PublishLocal ev _ => [ev]
                     | _ => []
                     end) t.

(** The events handed to [generate_notification]. *)
Definition encodings (t : list action) : list Event :=
  flat_map (fun a => match a with
                     | GenerateNotification ev => [ev]
                     | _ => []
                     end) t.

(** The payloads handed to [reconstitute_event]. *)
Definition decodings (t : list action) : list bytes :=
  flat_map (fun a => match a with
                     | ReconstituteEvent p => [p]
                     | _ => []
                     end) t.

(** The actions of a retry loop around [get_message]: polls, warnings
    and sleeps. *)
Definition is_poll_action (a : action) : bool :=
  match a with
  | GetMessage _ _ | LogWarning _ _ | Sleep _ => true
  | _ => false
  end.

(** The actions of [j] consecutive calls to [client.publish] that fail
    with the connection errors [errs call], [errs (call + 1)], ... and
    are retried: the call, the warning, the sleep. *)
Fixpoint failed_publishes (me : Broker) (notification : bytes)
    (errs : nat -> exn) (call attempt j : nat) : list action :=
  match j with
  | 0 => []
  | S j' =>
      ClientPublish (channel me) notification (Some (errs call))
      :: LogWarning attempt (errs call)
      :: Sleep (wait (retry_settings me) (mkRetryCallState attempt (errs call)))
      :: failed_publishes me notification errs (S call) (S attempt) j'
  end.

(** The state after [j] more calls to [client.publish]. *)
Definition after_publishes (j : nat) (s : State) : State :=
  {| self := self s;
     sub_calls := sub_calls s;
     pub_calls := j + pub_calls s;
     recv_calls := recv_calls s;
     local_calls := local_calls s |}.

(** The results of the calls to [get_message]. *)
Definition polls (t : list action) : list (exn + option Message) :=
  flat_map (fun a => match a with
                     | GetMessage _ r => [r]
                     | _ => []
                     end) t.

(** The messages [get_message] returned. *)
Definition received_messages (t : list action) : list Message :=
  flat_map (fun a => match a with
                     | GetMessage _ (inr (Some m)) => [m]
                     | _ => []
                     end) t.

(** What the listener hands to the local event bus for a message it
    received: the event its bytes decode to, if any. *)
Definition deliverable (re : Broker -> bytes -> exn + option Event)
    (me : Broker) (m : Message) : list Event :=
  match data m with
  | DataBytes payload =>
      match re me payload with
      | inr (Some ev) => [ev]
      | _ => []
      end
  | _ => []
  end.

(** The actions of [publish]: the encoding, transport calls, warnings
    and sleeps. *)
Definition is_publish_action (a : action) : bool :=
  match a with
  | GenerateNotification _ | ClientPublish _ _ _ | LogWarning _ _
  | Sleep _ => true
  | _ => false
  end.

(** The actions of the suite of the [try] in the listener: polls,
    warnings, sleeps, decodings and deliveries to the local bus. *)
Definition is_listen_action (a : action) : bool :=
  match a with
  | GetMessage _ _ | LogWarning _ _ | Sleep _ | ReconstituteEvent _
  | PublishLocal _ _ => true
  | _ => false
  end.

(** The state after one more call to [get_message]. *)
Definition after_poll (env : Env) (s : State) : State :=
  {| self := if recv_stop (env_get_message env (recv_calls s))
             then set_stopped true (self s) else self s;
     sub_calls := sub_calls s;
     pub_calls := pub_calls s;
     recv_calls := S (recv_calls s);
     local_calls := local_calls s |}.

(** The state after [j] more calls to [get_message]. *)
Fixpoint after_polls (env : Env) (j : nat) (s : State) : State :=
  match j with
  | 0 => s
  | S j' => after_polls env j' (after_poll env s)
  end.

(** The state after one more call to [publish_local]. *)
Definition after_delivery (s : State) : State :=
  {| self := self s;
     sub_calls := sub_calls s;
     pub_calls := pub_calls s;
     recv_calls := recv_calls s;
     local_calls := S (local_calls s) |}.

(** The actions of [j] consecutive calls to [get_message] that fail
    with the connection errors [errs call], [errs (call + 1)], ... and
    are retried: the call, the warning, the sleep. *)
Fixpoint failed_polls (me : Broker) (errs : nat -> exn)
    (call attempt j : nat) : list action :=
  match j with
  | 0 => []
  | S j' =>
      GetMessage (stop_check_interval me) (inl (errs call))
      :: LogWarning attempt (errs call)
      :: Sleep (wait (retry_settings me) (mkRetryCallState attempt (errs call)))
      :: failed_polls me errs (S call) (S attempt) j'
  end.

(** ** Concrete brokers and environments *)

Module Examples.

(** A serializer for events whose identifier holds no space: the
    identifier, a space, the payload. *)
Fixpoint split_space (b : bytes) : option (bytes * bytes) :=
  match b with
  | [] => None
  | x :: rest =>
      if Byte.eqb x " "%byte then Some ([], rest)
      else match split_space rest with
           | Some (l, r) => Some (x :: l, r)
           | None => None
           end
  end.

Definition plain : Serializer :=
  {| serialize := fun e =>
       list_byte_of_string (event_id e) ++ " "%byte
         :: list_byte_of_string (event_payload e);
     deserialize := fun b =>
       match split_space b with
       | Some (l, r) =>
           Some (mkEvent (string_of_list_byte l) (string_of_list_byte r))
       | None => None
       end |}.

Definition three_attempts : RetrySettings :=
  {| stop := stop_after_attempt 3; wait := wait_fixed 5 |}.

Definition id_a : bytes := list_byte_of_string "broker-aaaaaaaaa".
Definition id_b : bytes := list_byte_of_string "broker-bbbbbbbbb".

Definition broker_a : Broker := new_broker plain "ev" three_attempts 1 id_a.
Definition broker_b : Broker := new_broker plain "ev" three_attempts 1 id_b.

Definition fresh (b : Broker) : State :=
  {| self := b; sub_calls := 0; pub_calls := 0;
     recv_calls := 0; local_calls := 0 |}.

(** A broker in the listening state, as [start] leaves it. *)
Definition listening (b : Broker) : State :=
  fresh (set_task_group (Some ["Redis subscriber"%string])
           (set_stopped false b)).

Definition x1 : Event := mkEvent "x1" "hello".

Definition reset : exn := ConnectionError "connection reset".
Definition bad_subscription : exn := OtherError "malformed subscription".

Definition quiet : RecvResponse := mkRecv (inr None) false.

(** A server that is always unreachable for publishing. *)
Definition unreachable : Env :=
  {| env_subscribe := fun _ => None;
     env_publish := fun _ => Some reset;
     env_get_message := fun _ => quiet;
     env_publish_local := fun _ => None |}.

(** A server that accepts the third publish call; its subscription
    delivers nothing twice, then breaks with an error that is not a
    connection error. *)
Definition flaky : Env :=
  {| env_subscribe := fun _ => None;
     env_publish := fun k => if k <? 2 then Some reset else None;
     env_get_message := fun k =>
       if k <? 2 then quiet else mkRecv (inl bad_subscription) false;
     env_publish_local := fun _ => None |}.

(** A server that refuses the subscription and every publish call with
    an error that is not a connection error. *)
Definition refusing : Env :=
  {| env_subscribe := fun _ => Some bad_subscription;
     env_publish := fun _ => Some bad_subscription;
     env_get_message := fun _ => quiet;
     env_publish_local := fun _ => None |}.

(** A subscription that breaks at once with an error that is not a
    connection error. *)
Definition broken : Env :=
  {| env_subscribe := fun _ => None;
     env_publish := fun _ => None;
     env_get_message := fun _ => mkRecv (inl bad_subscription) false;
     env_publish_local := fun _ => None |}.

(** A subscription that delivers the notification of [x1] published by
    [origin], then nothing. *)
Definition delivering (origin : Broker) : Env :=
  {| env_subscribe := fun _ => None;
     env_publish := fun _ => None;
     env_get_message := fun k =>
       if k <? 1
       then mkRecv (inr (Some (mkMessage "message" "ev"
               (DataBytes (Codec.generate_notification origin x1))))) false
       else quiet;
     env_publish_local := fun _ => None |}.

(** A subscription that fails twice with a connection error, then
    delivers the notification of [x1] published by [origin], then
    times out while another task calls [stop()]. *)
Definition recovering (origin : Broker) : Env :=
  {| env_subscribe := fun _ => None;
     env_publish := fun _ => None;
     env_get_message := fun k =>
       if k <? 2 then mkRecv (inl reset) false
       else if k <? 3
       then mkRecv (inr (Some (mkMessage "message" "ev"
               (DataBytes (Codec.generate_notification origin x1))))) false
       else mkRecv (inr None) true;
     env_publish_local := fun _ => None |}.

(** A subscription whose every receive fails with a connection
    error. *)
Definition deaf : Env :=
  {| env_subscribe := fun _ => None;
     env_publish := fun _ => None;
     env_get_message := fun _ => mkRecv (inl reset) false;
     env_publish_local := fun _ => None |}.

(** A subscription that delivers a message whose data are text, then
    the notification of [x1] published by [origin] while another task
    calls [stop()]; the local event bus fails with a connection
    error. *)
Definition noisy (origin : Broker) : Env :=
  {| env_subscribe := fun _ => None;
     env_publish := fun _ => None;
     env_get_message := fun k =>
       if k <? 1
       then mkRecv (inr (Some (mkMessage "message" "ev" (DataStr "text"))))
              false
       else mkRecv (inr (Some (mkMessage "message" "ev"
               (DataBytes (Codec.generate_notification origin x1))))) true;
     env_publish_local := fun _ => Some reset |}.

(** A policy that never gives up, and a broker that uses it. *)
Definition patient : RetrySettings :=
  {| stop := stop_never; wait := wait_fixed 5 |}.

Definition broker_p : Broker := new_broker plain "ev" patient 1 id_a.

End Examples.

(** * Properties *)

(** ** Equations of the retry loop *)

Section RetryLoop.

Variable A : Type.
Variable me : Broker.
Variable body : M A.

Lemma iterate_returns (fuel attempt : nat) (s s1 : State) (a : A)
    (t1 : list action) :
  body s = (Ret a, s1, t1) ->
  iterate (S fuel) (_retry me) attempt body s = (Ret a, s1, t1).
Proof.
  intros Hbody. simpl. unfold try_except. now rewrite Hbody.
Qed.

Lemma iterate_rejects (fuel attempt : nat) (s s1 : State) (e : exn)
    (t1 : list action) :
  body s = (Raise e, s1, t1) ->
  is_connection_error e = false ->
  iterate (S fuel) (_retry me) attempt body s = (Raise e, s1, t1).
Proof.
  intros Hbody He. simpl. unfold try_except. rewrite Hbody. simpl.
  rewrite He. unfold raise. now rewrite app_nil_r.
Qed.

Lemma iterate_gives_up (fuel attempt : nat) (s s1 : State) (e : exn)
    (t1 : list action) :
  body s = (Raise e, s1, t1) ->
  is_connection_error e = true ->
  stop (retry_settings me) (mkRetryCallState attempt e) = true ->
  iterate (S fuel) (_retry me) attempt body s
  = (Raise e, s1, t1 ++ [LogWarning attempt e]).
Proof.
  intros Hbody He Hstop. simpl. unfold try_except. rewrite Hbody. simpl.
  rewrite He. unfold bind, after_attempt, emit. simpl. rewrite Hstop.
  reflexivity.
Qed.

Lemma iterate_tries_again (fuel attempt : nat) (s s1 : State) (e : exn)
    (t1 : list action) :
  body s = (Raise e, s1, t1) ->
  is_connection_error e = true ->
  stop (retry_settings me) (mkRetryCallState attempt e) = false ->
  iterate (S fuel) (_retry me) attempt body s
  = match iterate fuel (_retry me) (S attempt) body s1 with
    | (r, s2, t2) =>
        (r, s2,
         t1 ++ LogWarning attempt e
            :: Sleep (wait (retry_settings me) (mkRetryCallState attempt e))
            :: t2)
    end.
Proof.
  intros Hbody He Hstop. simpl. unfold try_except. rewrite Hbody. simpl.
  rewrite He. unfold bind, after_attempt, sleep, emit. simpl.
  rewrite Hstop.
  destruct (iterate fuel (_retry me) (S attempt) body s1) as [[r s2] t2].
  destruct r; reflexivity.
Qed.

Lemma iterate_body_out_of_fuel (fuel attempt : nat) (s s1 : State)
    (t1 : list action) :
  body s = (OutOfFuel, s1, t1) ->
  iterate (S fuel) (_retry me) attempt body s = (OutOfFuel, s1, t1).
Proof.
  intros Hbody. simpl. unfold try_except. now rewrite Hbody.
Qed.

End RetryLoop.

(** ** Observations: basic facts *)

Lemma after_publishes_0 (s : State) : after_publishes 0 s = s.
Proof. now destruct s. Qed.

Lemma after_publishes_S (j : nat) (s : State) :
  after_publishes j (after_publishes 1 s) = after_publishes (S j) s.
Proof.
  unfold after_publishes. simpl. f_equal. lia.
Qed.

Lemma transport_publishes_app (t1 t2 : list action) :
  transport_publishes (t1 ++ t2)
  = transport_publishes t1 ++ transport_publishes t2.
Proof. apply flat_map_app. Qed.

Lemma successful_publishes_app (t1 t2 : list action) :
  successful_publishes (t1 ++ t2)
  = successful_publishes t1 ++ successful_publishes t2.
Proof. apply flat_map_app. Qed.

Lemma reported_failures_app (t1 t2 : list action) :
  reported_failures (t1 ++ t2) = reported_failures t1 ++ reported_failures t2.
Proof. apply flat_map_app. Qed.

Lemma waits_app (t1 t2 : list action) :
  waits (t1 ++ t2) = waits t1 ++ waits t2.
Proof. apply flat_map_app. Qed.

Lemma local_deliveries_app (t1 t2 : list action) :
  local_deliveries (t1 ++ t2) = local_deliveries t1 ++ local_deliveries t2.
Proof. apply flat_map_app. Qed.

Lemma encodings_app (t1 t2 : list action) :
  encodings (t1 ++ t2) = encodings t1 ++ encodings t2.
Proof. apply flat_map_app. Qed.

Lemma decodings_app (t1 t2 : list action) :
  decodings (t1 ++ t2) = decodings t1 ++ decodings t2.
Proof. apply flat_map_app. Qed.

Section FailedPublishes.

Variable me : Broker.
Variable notification : bytes.
Variable errs : nat -> exn.

Lemma failed_publishes_calls (j call attempt : nat) :
  List.length (transport_publishes
                 (failed_publishes me notification errs call attempt j)) = j.
Proof.
  revert call attempt.
  induction j as [|j IH]; intros call attempt; simpl; [reflexivity|].
  now rewrite IH.
Qed.

Lemma failed_publishes_no_success (j call attempt : nat) :
  successful_publishes (failed_publishes me notification errs call attempt j)
  = [].
Proof.
  revert call attempt.
  induction j as [|j IH]; intros call attempt; simpl; [reflexivity|].
  apply IH.
Qed.

Lemma failed_publishes_reports (j call attempt : nat) :
  reported_failures (failed_publishes me notification errs call attempt j)
  = map (fun i => (attempt + i, errs (call + i))) (seq 0 j).
Proof.
  revert call attempt.
  induction j as [|j IH]; intros call attempt; simpl; [reflexivity|].
  rewrite IH, <- seq_shift, map_map.
  rewrite !Nat.add_0_r. f_equal.
  apply map_ext. intros i. now rewrite !Nat.add_succ_r.
Qed.

Lemma failed_publishes_waits (j call attempt : nat) :
  List.length (waits (failed_publishes me notification errs call attempt j))
  = j.
Proof.
  revert call attempt.
  induction j as [|j IH]; intros call attempt; simpl; [reflexivity|].
  now rewrite IH.
Qed.

Lemma failed_publishes_no_delivery (j call attempt : nat) :
  local_deliveries (failed_publishes me notification errs call attempt j)
  = [].
Proof.
  revert call attempt.
  induction j as [|j IH]; intros call attempt; simpl; [reflexivity|].
  apply IH.
Qed.

End FailedPublishes.

(** ** The publish path *)

Section PublishPath.

Variable env : Env.
Variable generate_notification : Broker -> Event -> bytes.

Lemma client_publish_run (ch : string) (n : bytes) (s : State) :
  client_publish env ch n s
  = (outcome_of (env_publish env (pub_calls s)),
     after_publishes 1 s,
     [ClientPublish ch n (env_publish env (pub_calls s))]).
Proof. reflexivity. Qed.

(** [j] failed attempts that are retried, then the rest of the loop. *)
Lemma iterate_failed_publishes (me : Broker) (n : bytes) (errs : nat -> exn)
    (j : nat) :
  forall (fuel attempt : nat) (s : State),
    (forall i, i < j ->
       env_publish env (pub_calls s + i) = Some (errs (pub_calls s + i))
       /\ is_connection_error (errs (pub_calls s + i)) = true
       /\ stop (retry_settings me)
            (mkRetryCallState (attempt + i) (errs (pub_calls s + i)))
          = false) ->
    iterate (j + fuel) (_retry me) attempt
      (client_publish env (channel me) n) s
    = match iterate fuel (_retry me) (attempt + j)
              (client_publish env (channel me) n) (after_publishes j s) with
      | (r, s', t) =>
          (r, s', failed_publishes me n errs (pub_calls s) attempt j ++ t)
      end.
Proof.
  induction j as [|j IH]; intros fuel attempt s Hfail.
  - rewrite Nat.add_0_r, after_publishes_0. simpl.
    now destruct (iterate fuel _ attempt _ s) as [[r s'] t].
  - destruct (Hfail 0 (Nat.lt_0_succ j)) as (Henv & Hconn & Hstop).
    rewrite !Nat.add_0_r in *.
    change (S j + fuel) with (S (j + fuel)).
    rewrite (@iterate_tries_again unit me _ (j + fuel) attempt s
               (after_publishes 1 s) (errs (pub_calls s))
               [ClientPublish (channel me) n (Some (errs (pub_calls s)))]);
      [ | rewrite client_publish_run, Henv; reflexivity | assumption
        | assumption ].
    rewrite IH.
    + rewrite after_publishes_S, Nat.add_succ_r.
      change (S attempt + j) with (S (attempt + j)).
      destruct (iterate fuel _ (S (attempt + j)) _ (after_publishes (S j) s))
        as [[r s'] t].
      reflexivity.
    + intros i Hi. simpl.
      specialize (Hfail (S i) (proj1 (Nat.succ_lt_mono i j) Hi)).
      rewrite !Nat.add_succ_r in Hfail. exact Hfail.
Qed.

Lemma after_one_more_publish (m : nat) (s : State) :
  after_publishes 1 (after_publishes m s) = after_publishes (S m) s.
Proof. reflexivity. Qed.

(** [m] retried failures, then a failure at which the policy stops. *)
Lemma publish_gives_up (m : nat) (errs : nat -> exn) (ev : Event)
    (fuel : nat) (s : State) :
  stop (retry_settings (self s)) = stop_after_attempt (S m) ->
  S m <= fuel ->
  (forall i, i <= m ->
     env_publish env (pub_calls s + i) = Some (errs (pub_calls s + i))
     /\ is_connection_error (errs (pub_calls s + i)) = true) ->
  publish env generate_notification fuel ev s
  = (Raise (errs (pub_calls s + m)),
     after_publishes (S m) s,
     GenerateNotification ev
     :: failed_publishes (self s) (generate_notification (self s) ev) errs
          (pub_calls s) 1 m
     ++ [ClientPublish (channel (self s))
           (generate_notification (self s) ev)
           (Some (errs (pub_calls s + m)));
         LogWarning (S m) (errs (pub_calls s + m))]).
Proof.
  intros Hstop Hfuel Hfail.
  unfold publish, bind, get_self, emit. simpl.
  replace fuel with (m + S (fuel - S m)) by lia.
  rewrite (iterate_failed_publishes (self s) _ errs).
  - destruct (Hfail m (le_n m)) as (Henv & Hconn).
    rewrite (@iterate_gives_up unit (self s) _ (fuel - S m) (1 + m)
               (after_publishes m s) (after_publishes (S m) s)
               (errs (pub_calls s + m))
               [ClientPublish (channel (self s))
                  (generate_notification (self s) ev)
                  (Some (errs (pub_calls s + m)))]).
    + reflexivity.
    + rewrite client_publish_run. simpl pub_calls.
      rewrite (Nat.add_comm m), Henv. reflexivity.
    + exact Hconn.
    + rewrite Hstop. unfold stop_after_attempt. simpl.
      apply Nat.leb_refl.
  - intros i Hi. destruct (Hfail i (Nat.lt_le_incl _ _ Hi)) as (Henv & Hconn).
    repeat split; try assumption.
    rewrite Hstop. unfold stop_after_attempt. simpl.
    apply Nat.leb_gt. lia.
Qed.

(** [m] retried failures, then a call the server accepts. *)
Lemma publish_succeeds (N m : nat) (errs : nat -> exn) (ev : Event)
    (fuel : nat) (s : State) :
  stop (retry_settings (self s)) = stop_after_attempt N ->
  S m <= N ->
  S m <= fuel ->
  (forall i, i < m ->
     env_publish env (pub_calls s + i) = Some (errs (pub_calls s + i))
     /\ is_connection_error (errs (pub_calls s + i)) = true) ->
  env_publish env (pub_calls s + m) = None ->
  publish env generate_notification fuel ev s
  = (Ret tt,
     after_publishes (S m) s,
     GenerateNotification ev
     :: failed_publishes (self s) (generate_notification (self s) ev) errs
          (pub_calls s) 1 m
     ++ [ClientPublish (channel (self s))
           (generate_notification (self s) ev) None]).
Proof.
  intros Hstop HN Hfuel Hfail Hok.
  unfold publish, bind, get_self, emit. simpl.
  replace fuel with (m + S (fuel - S m)) by lia.
  rewrite (iterate_failed_publishes (self s) _ errs).
  - rewrite (@iterate_returns unit (self s) _ (fuel - S m) (1 + m)
               (after_publishes m s) (after_publishes (S m) s) tt
               [ClientPublish (channel (self s))
                  (generate_notification (self s) ev) None]).
    + reflexivity.
    + rewrite client_publish_run. simpl pub_calls.
      rewrite (Nat.add_comm m), Hok. reflexivity.
  - intros i Hi. destruct (Hfail i Hi) as (Henv & Hconn).
    repeat split; try assumption.
    rewrite Hstop. unfold stop_after_attempt. simpl.
    apply Nat.leb_gt. lia.
Qed.

(** Whatever the server answers, a retry loop around [client.publish]
    encodes nothing and pushes the same channel and bytes each time. *)
Lemma iterate_publish_same_bytes (me : Broker) (ch : string) (n : bytes)
    (fuel : nat) :
  forall (attempt : nat) (s : State),
    match iterate fuel (_retry me) attempt (client_publish env ch n) s with
    | (_, _, t) =>
        encodings t = []
        /\ Forall (fun c => fst c = (ch, n)) (transport_publishes t)
    end.
Proof.
  induction fuel as [|fuel IH]; intros attempt s.
  - simpl. split; [reflexivity | constructor].
  - pose proof (client_publish_run ch n s) as Hrun.
    destruct (env_publish env (pub_calls s)) as [e|] eqn:Henv.
    + destruct (is_connection_error e) eqn:Hconn.
      * destruct (stop (retry_settings me) (mkRetryCallState attempt e))
          eqn:Hstop.
        -- rewrite (iterate_gives_up me _ fuel attempt s Hrun Hconn Hstop).
           simpl. split; [reflexivity | repeat constructor].
        -- rewrite (iterate_tries_again me _ fuel attempt s Hrun Hconn Hstop).
           specialize (IH (S attempt) (after_publishes 1 s)).
           destruct (iterate fuel _ (S attempt) _ (after_publishes 1 s))
             as [[r s2] t2].
           destruct IH as (Henc & Hsame). simpl.
           split; [assumption | constructor; [reflexivity | assumption]].
      * rewrite (iterate_rejects me _ fuel attempt s Hrun Hconn).
        simpl. split; [reflexivity | repeat constructor].
    + rewrite (iterate_returns me _ fuel attempt s Hrun).
      simpl. split; [reflexivity | repeat constructor].
Qed.

End PublishPath.

(** ** Claims on the retry wrapper and the publish path *)

(** C2, as stated, fails: with a stop condition of three attempts and a
    server that is always unreachable, [publish] calls the transport
    three times and raises the connection error, but [after_attempt]
    has reported three failures (the last attempt included), not two. *)
Lemma final_attempt_is_reported_too :
  match publish Examples.unreachable Codec.generate_notification 3
          Examples.x1 (Examples.fresh Examples.broker_a) with
  | (r, _, t) =>
      r = Raise Examples.reset
      /\ List.length (transport_publishes t) = 3
      /\ reported_failures t
         = [(1, Examples.reset); (2, Examples.reset); (3, Examples.reset)]
      /\ List.length (reported_failures t) <> 3 - 1
      /\ waits t = [5; 5]
  end.
Proof.
  vm_compute. repeat split. discriminate.
Qed.

(** C2, amended: under a retry policy that stops after N attempts
    (N >= 1) and a transport whose publish always fails with a
    connection error, [publish(event)] calls the transport exactly N
    times, none of them successfully, reports each of the N failed
    attempts with its attempt number 1..N and its error (the N-1
    intermediate failures, each followed by a wait, and the final one),
    and then raises the error of the last attempt. *)
Theorem publish_fails_after_N_attempts :
  forall (env : Env) (gn : Broker -> Event -> bytes) (N : nat)
         (errs : nat -> exn) (ev : Event) (fuel : nat) (s : State),
    stop (retry_settings (self s)) = stop_after_attempt N ->
    1 <= N ->
    N <= fuel ->
    (forall k, env_publish env k = Some (errs k)
               /\ is_connection_error (errs k) = true) ->
    exists s' t,
      publish env gn fuel ev s = (Raise (errs (pub_calls s + (N - 1))), s', t)
      /\ List.length (transport_publishes t) = N
      /\ pub_calls s' = N + pub_calls s
      /\ successful_publishes t = []
      /\ reported_failures t
         = map (fun i => (1 + i, errs (pub_calls s + i))) (seq 0 N)
      /\ List.length (waits t) = N - 1.
Proof.
  intros env gn N errs ev fuel s Hstop HN Hfuel Hfail.
  destruct N as [|m]; [lia|].
  replace (S m - 1) with m by lia.
  eexists. eexists. split.
  - apply publish_gives_up; auto.
  - simpl transport_publishes. simpl successful_publishes.
    simpl reported_failures. simpl waits.
    rewrite transport_publishes_app, successful_publishes_app,
      reported_failures_app, waits_app.
    rewrite !length_app, failed_publishes_calls, failed_publishes_no_success,
      failed_publishes_reports, failed_publishes_waits.
    rewrite (seq_S m 0), map_app.
    simpl. repeat split; lia.
Qed.

Lemma publish_fails_after_N_attempts_witness :
  exists s' t,
    publish Examples.unreachable Codec.generate_notification 3 Examples.x1
      (Examples.fresh Examples.broker_a)
    = (Raise Examples.reset, s', t)
    /\ List.length (transport_publishes t) = 3
    /\ pub_calls s' = 3
    /\ successful_publishes t = []
    /\ reported_failures t
       = [(1, Examples.reset); (2, Examples.reset); (3, Examples.reset)]
    /\ List.length (waits t) = 2.
Proof.
  apply (@publish_fails_after_N_attempts Examples.unreachable
           Codec.generate_notification 3 (fun _ => Examples.reset)
           Examples.x1 3 (Examples.fresh Examples.broker_a)).
  - reflexivity.
  - lia.
  - lia.
  - intros k. split; reflexivity.
Defined.

(** C3: an operation run under the retry wrapper that fails with an
    error that is not a connection error makes the wrapper raise that
    error at once, whatever the attempt number: the state and the
    actions are those of that single run of the operation, so the
    operation is not invoked again, nothing is reported and nothing is
    slept. *)
Theorem rejected_error_propagates_immediately :
  forall (A : Type) (me : Broker) (operation : M A) (fuel attempt : nat)
         (s s1 : State) (e : exn) (t1 : list action),
    operation s = (Raise e, s1, t1) ->
    is_connection_error e = false ->
    iterate (S fuel) (_retry me) attempt operation s = (Raise e, s1, t1).
Proof.
  intros A me operation fuel attempt s s1 e t1 Hop He.
  now apply iterate_rejects.
Qed.

Lemma rejected_error_propagates_immediately_witness :
  iterate 3 (_retry Examples.broker_a) 1
    (client_publish Examples.refusing "ev" [])
    (Examples.fresh Examples.broker_a)
  = (Raise Examples.bad_subscription,
     after_publishes 1 (Examples.fresh Examples.broker_a),
     [ClientPublish "ev" [] (Some Examples.bad_subscription)]).
Proof.
  apply (@rejected_error_propagates_immediately unit Examples.broker_a
           (client_publish Examples.refusing "ev" []) 2 1
           (Examples.fresh Examples.broker_a)).
  - reflexivity.
  - reflexivity.
Defined.

(** C7: under a retry policy that stops after N attempts, when the
    transport push fails with connection errors on the first k-1
    attempts (1 <= k <= N) and succeeds on attempt k, [publish(event)]
    returns normally, exactly one of its k transport calls is
    successful, and it hands nothing to the local event bus. *)
Theorem publish_succeeds_on_attempt_k :
  forall (env : Env) (gn : Broker -> Event -> bytes) (N k : nat)
         (errs : nat -> exn) (ev : Event) (fuel : nat) (s : State),
    stop (retry_settings (self s)) = stop_after_attempt N ->
    1 <= k ->
    k <= N ->
    k <= fuel ->
    (forall i, i < k - 1 ->
       env_publish env (pub_calls s + i) = Some (errs (pub_calls s + i))
       /\ is_connection_error (errs (pub_calls s + i)) = true) ->
    env_publish env (pub_calls s + (k - 1)) = None ->
    exists s' t,
      publish env gn fuel ev s = (Ret tt, s', t)
      /\ successful_publishes t = [(channel (self s), gn (self s) ev)]
      /\ List.length (transport_publishes t) = k
      /\ local_deliveries t = []
      /\ local_calls s' = local_calls s.
Proof.
  intros env gn N k errs ev fuel s Hstop Hk HN Hfuel Hfail Hok.
  destruct k as [|m]; [lia|].
  replace (S m - 1) with m in * by lia.
  eexists. eexists. split.
  - apply (publish_succeeds env gn (N:=N) (m:=m) errs); auto.
  - simpl transport_publishes. simpl successful_publishes.
    simpl local_deliveries.
    rewrite transport_publishes_app, successful_publishes_app,
      local_deliveries_app.
    rewrite length_app, failed_publishes_calls, failed_publishes_no_success,
      failed_publishes_no_delivery.
    simpl. repeat split. lia.
Qed.

Lemma publish_succeeds_on_attempt_k_witness :
  exists s' t,
    publish Examples.flaky Codec.generate_notification 3 Examples.x1
      (Examples.fresh Examples.broker_a)
    = (Ret tt, s', t)
    /\ successful_publishes t
       = [("ev"%string,
           Codec.generate_notification Examples.broker_a Examples.x1)]
    /\ List.length (transport_publishes t) = 3
    /\ local_deliveries t = []
    /\ local_calls s' = 0.
Proof.
  apply (@publish_succeeds_on_attempt_k Examples.flaky
           Codec.generate_notification 3 3 (fun _ => Examples.reset)
           Examples.x1 3 (Examples.fresh Examples.broker_a)).
  - reflexivity.
  - lia.
  - lia.
  - lia.
  - intros i Hi. simpl in Hi.
    destruct i as [|[|i]]; [split; reflexivity | split; reflexivity | lia].
  - reflexivity.
Defined.

(** C10: every call to [publish(event)] encodes the event exactly once,
    before any transport attempt, and every transport attempt of the
    retry loop, however many there are, pushes the same channel and the
    same bytes, the ones of that single encoding. *)
Theorem publish_encodes_once :
  forall (env : Env) (gn : Broker -> Event -> bytes) (fuel : nat)
         (ev : Event) (s : State),
    exists r s' rest,
      publish env gn fuel ev s = (r, s', GenerateNotification ev :: rest)
      /\ encodings rest = []
      /\ Forall (fun c => fst c = (channel (self s), gn (self s) ev))
           (transport_publishes rest).
Proof.
  intros env gn fuel ev s.
  unfold publish, bind, get_self, emit. simpl.
  pose proof (iterate_publish_same_bytes env (self s) (channel (self s))
                (gn (self s) ev) fuel 1 s) as Hsame.
  destruct (iterate fuel (_retry (self s)) 1
              (client_publish env (channel (self s)) (gn (self s) ev)) s)
    as [[r s'] rest].
  exists r, s', rest. split; [reflexivity | exact Hsame].
Qed.

(** ** The listener *)

Lemma poll_actions_deliver_nothing (t : list action) :
  Forall (fun a => is_poll_action a = true) t ->
  local_deliveries t = [] /\ decodings t = [].
Proof.
  induction 1 as [|a t Ha _ [IHl IHd]]; [now split|].
  destruct a; try discriminate; simpl; now split.
Qed.

Section Listener.

Variable env : Env.
Variable reconstitute_event : Broker -> bytes -> exn + option Event.

Lemma get_message_run (timeout : duration) (s : State) :
  get_message env timeout s
  = (match recv_result (env_get_message env (recv_calls s)) with
     | inl e => Raise e
     | inr m => Ret m
     end,
     {| self := if recv_stop (env_get_message env (recv_calls s))
                then set_stopped true (self s) else self s;
        sub_calls := sub_calls s;
        pub_calls := pub_calls s;
        recv_calls := S (recv_calls s);
        local_calls := local_calls s |},
     [GetMessage timeout (recv_result (env_get_message env (recv_calls s)))]).
Proof. reflexivity. Qed.

(** A retry loop around [get_message] only polls, warns and sleeps; it
    leaves the other counters alone and keeps the configuration of the
    broker; it leaves the whole broker object alone when no other task
    calls [stop()] meanwhile. *)
Lemma iterate_get_message_frame (me : Broker) (timeout : duration)
    (fuel : nat) :
  forall (attempt : nat) (s : State),
    match iterate fuel (_retry me) attempt (get_message env timeout) s with
    | (_, s', t) =>
        Forall (fun a => is_poll_action a = true) t
        /\ local_calls s' = local_calls s
        /\ serializer (self s') = serializer (self s)
        /\ instance_id (self s') = instance_id (self s)
        /\ ((forall k, recv_stop (env_get_message env k) = false) ->
            self s' = self s)
    end.
Proof.
  induction fuel as [|fuel IH]; intros attempt s.
  - simpl. repeat split; auto.
  - pose proof (get_message_run timeout s) as Hrun.
    set (s1 := {| self := _; sub_calls := _ |}) in Hrun.
    assert (Hs1 : local_calls s1 = local_calls s
                  /\ serializer (self s1) = serializer (self s)
                  /\ instance_id (self s1) = instance_id (self s)
                  /\ ((forall k, recv_stop (env_get_message env k) = false)
                      -> self s1 = self s)).
    { subst s1. simpl. repeat split.
      - now destruct (recv_stop _).
      - now destruct (recv_stop _).
      - intros Hquiet. now rewrite Hquiet. }
    destruct Hs1 as (Hl & Hser & Hid & Hself).
    destruct (recv_result (env_get_message env (recv_calls s))) as [e|m].
    + destruct (is_connection_error e) eqn:Hconn.
      * destruct (stop (retry_settings me) (mkRetryCallState attempt e))
          eqn:Hstop.
        -- rewrite (iterate_gives_up me _ fuel attempt s Hrun Hconn Hstop).
           repeat split; auto; repeat constructor.
        -- rewrite (iterate_tries_again me _ fuel attempt s Hrun Hconn Hstop).
           specialize (IH (S attempt) s1).
           destruct (iterate fuel _ (S attempt) _ s1) as [[r s2] t2].
           destruct IH as (Hpoll & Hl2 & Hser2 & Hid2 & Hself2).
           repeat split; try congruence.
           ++ repeat constructor. exact Hpoll.
           ++ intros Hquiet. rewrite Hself2, Hself; auto.
      * rewrite (iterate_rejects me _ fuel attempt s Hrun Hconn).
        repeat split; auto; repeat constructor.
    + rewrite (iterate_returns me _ fuel attempt s Hrun).
      repeat split; auto; repeat constructor.
Qed.

Lemma listen_iteration_run (fuel : nat) (s : State) :
  listen_iteration env reconstitute_event fuel s
  = match listen_try env reconstitute_event fuel s with
    | (Raise e, s1, t1) => (Raise e, s1, t1 ++ [LogException e; ClosePubSub])
    | other => other
    end.
Proof.
  unfold listen_iteration, try_except.
  destruct (listen_try env reconstitute_event fuel s) as [[[a|e|] s1] t1];
    reflexivity.
Qed.

(** A poll that ends with a timeout ends the suite of the [try]. *)
Lemma listen_try_timeout (fuel : nat) (s s1 : State) (t1 : list action) :
  iterate fuel (_retry (self s)) 1
    (get_message env (stop_check_interval (self s))) s
  = (Ret None, s1, t1) ->
  listen_try env reconstitute_event fuel s = (Ret tt, s1, t1).
Proof.
  intros Hpoll. unfold listen_try, bind, get_self. simpl.
  rewrite Hpoll. simpl. unfold ret. now rewrite app_nil_r.
Qed.

(** The suite of the [try], by cases on the outcome of the poll. *)
Lemma listen_try_cases (fuel : nat) (s : State) :
  match iterate fuel (_retry (self s)) 1
          (get_message env (stop_check_interval (self s))) s with
  | (Ret (Some m), s1, t1) =>
      match data m with
      | DataBytes payload =>
          match reconstitute_event (self s1) payload with
          | inl e =>
              listen_try env reconstitute_event fuel s
              = (Raise e, s1, t1 ++ [ReconstituteEvent payload])
          | inr (Some ev) =>
              exists s2,
                listen_try env reconstitute_event fuel s
                = (outcome_of (env_publish_local env (local_calls s1)), s2,
                   t1 ++ [ReconstituteEvent payload;
                          PublishLocal ev
                            (env_publish_local env (local_calls s1))])
                /\ self s2 = self s1
          | inr None =>
              listen_try env reconstitute_event fuel s
              = (Ret tt, s1, t1 ++ [ReconstituteEvent payload])
          end
      | _ => listen_try env reconstitute_event fuel s = (Ret tt, s1, t1)
      end
  | (Ret None, s1, t1) =>
      listen_try env reconstitute_event fuel s = (Ret tt, s1, t1)
  | (Raise e, s1, t1) =>
      listen_try env reconstitute_event fuel s = (Raise e, s1, t1)
  | (OutOfFuel, s1, t1) =>
      listen_try env reconstitute_event fuel s = (OutOfFuel, s1, t1)
  end.
Proof.
  unfold listen_try, bind, get_self. simpl.
  destruct (iterate fuel (_retry (self s)) 1
              (get_message env (stop_check_interval (self s))) s)
    as [[[[m|]|e|] s1] t1]; simpl; unfold ret; rewrite ?app_nil_r; auto.
  destruct (data m) as [payload|str|n]; simpl; rewrite ?app_nil_r; auto.
  destruct (reconstitute_event (self s1) payload) as [e|[ev|]]; simpl; auto.
  unfold publish_local.
  destruct (env_publish_local env (local_calls s1)) as [e|]; simpl;
    eexists; split; reflexivity.
Qed.

(** An error raised in the suite of the [try] comes from the poll,
    from decoding or from the local event bus. *)
Lemma listen_try_raise_sources (fuel : nat) (s s' : State) (e : exn)
    (t : list action) :
  listen_try env reconstitute_event fuel s = (Raise e, s', t) ->
  iterate fuel (_retry (self s)) 1
    (get_message env (stop_check_interval (self s))) s = (Raise e, s', t)
  \/ (exists m payload s1 t1,
        iterate fuel (_retry (self s)) 1
          (get_message env (stop_check_interval (self s))) s
        = (Ret (Some m), s1, t1)
        /\ data m = DataBytes payload
        /\ (reconstitute_event (self s1) payload = inl e
            \/ exists ev,
                 reconstitute_event (self s1) payload = inr (Some ev)
                 /\ env_publish_local env (local_calls s1) = Some e)).
Proof.
  intros Hraise.
  pose proof (listen_try_cases fuel s) as Hcases.
  destruct (iterate fuel (_retry (self s)) 1
              (get_message env (stop_check_interval (self s))) s)
    as [[[[m|]|e1|] s1] t1]; try congruence.
  - right. exists m.
    destruct (data m) as [payload|str|n] eqn:Hdata; try congruence.
    exists payload, s1, t1. repeat split.
    destruct (reconstitute_event (self s1) payload) as [e2|[ev|]];
      try congruence.
    + left. congruence.
    + right. exists ev. split; [reflexivity|].
      destruct Hcases as (s2 & Hrun & _). rewrite Hrun in Hraise.
      destruct (env_publish_local env (local_calls s1)); simpl in Hraise;
        congruence.
  - left. congruence.
Qed.

Lemma listen_loop_stopped (n fuel : nat) (s : State) :
  _stopped (self s) = true ->
  _listen_messages env reconstitute_event (S n) fuel s = (Ret tt, s, []).
Proof.
  intros Hflag. simpl. unfold bind, get_self. simpl. now rewrite Hflag.
Qed.

Lemma listen_loop_step (n fuel : nat) (s : State) :
  _stopped (self s) = false ->
  _listen_messages env reconstitute_event (S n) fuel s
  = match listen_iteration env reconstitute_event fuel s with
    | (Ret _, s1, t1) =>
        match _listen_messages env reconstitute_event n fuel s1 with
        | (r, s2, t2) => (r, s2, t1 ++ t2)
        end
    | (Raise e, s1, t1) => (Raise e, s1, t1)
    | (OutOfFuel, s1, t1) => (OutOfFuel, s1, t1)
    end.
Proof.
  intros Hflag. simpl. unfold bind at 1, get_self. simpl. rewrite Hflag.
  unfold bind.
  destruct (listen_iteration env reconstitute_event fuel s)
    as [[[a|e|] s1] t1]; try reflexivity.
  now destruct (_listen_messages env reconstitute_event n fuel s1)
    as [[r s2] t2].
Qed.

(** One iteration never writes the broker object, apart from the stop
    flag that another task may set during a poll; when it raises, its
    last actions are the report of the error and the closing of the
    subscription. *)
Lemma listen_iteration_frame (fuel : nat) (s : State) :
  (forall k, recv_stop (env_get_message env k) = false) ->
  match listen_iteration env reconstitute_event fuel s with
  | (r, s', t) =>
      self s' = self s
      /\ forall e, r = Raise e ->
           exists t0, t = t0 ++ [LogException e; ClosePubSub]
  end.
Proof.
  intros Hquiet.
  rewrite listen_iteration_run.
  pose proof (listen_try_cases fuel s) as Hcases.
  pose proof (iterate_get_message_frame (self s)
                (stop_check_interval (self s)) fuel 1 s) as Hframe.
  destruct (iterate fuel (_retry (self s)) 1
              (get_message env (stop_check_interval (self s))) s)
    as [[[[m|]|e1|] s1] t1];
    destruct Hframe as (_ & _ & _ & _ & Hself); specialize (Hself Hquiet).
  - destruct (data m) as [payload|str|n].
    + destruct (reconstitute_event (self s1) payload) as [e2|[ev|]].
      * rewrite Hcases. split; [assumption|].
        intros e He. injection He as <-. eexists. reflexivity.
      * destruct Hcases as (s2 & Hrun & Hs2). rewrite Hrun.
        destruct (env_publish_local env (local_calls s1)) as [e3|]; simpl.
        -- split; [congruence|].
           intros e He. injection He as <-. eexists. reflexivity.
        -- split; [congruence|]. discriminate.
      * rewrite Hcases. split; [assumption|]. discriminate.
    + rewrite Hcases. split; [assumption|]. discriminate.
    + rewrite Hcases. split; [assumption|]. discriminate.
  - rewrite Hcases. split; [assumption|]. discriminate.
  - rewrite Hcases. split; [assumption|].
    intros e He. injection He as <-. eexists. reflexivity.
  - rewrite Hcases. split; [assumption|]. discriminate.
Qed.

(** The listener never writes the broker object: when no other task
    calls [stop()], the object is the same when the listener ends,
    however it ends. *)
Lemma listen_messages_frame (fuel : nat) :
  (forall k, recv_stop (env_get_message env k) = false) ->
  forall (n : nat) (s : State),
    match _listen_messages env reconstitute_event n fuel s with
    | (r, s', t) =>
        self s' = self s
        /\ forall e, r = Raise e ->
             _stopped (self s) = false
             /\ exists t0, t = t0 ++ [LogException e; ClosePubSub]
    end.
Proof.
  intros Hquiet. induction n as [|n IH]; intros s.
  - simpl. split; [reflexivity | discriminate].
  - destruct (_stopped (self s)) eqn:Hflag.
    + rewrite (listen_loop_stopped n fuel s Hflag).
      split; [reflexivity | discriminate].
    + rewrite (listen_loop_step n fuel s Hflag).
      pose proof (listen_iteration_frame fuel s Hquiet) as Hiter.
      destruct (listen_iteration env reconstitute_event fuel s)
        as [[[a|e1|] s1] t1]; destruct Hiter as (Hself & Hraise).
      * specialize (IH s1).
        destruct (_listen_messages env reconstitute_event n fuel s1)
          as [[r s2] t2].
        destruct IH as (Hself2 & Hraise2).
        split; [congruence|].
        intros e He. destruct (Hraise2 e He) as (_ & t0 & Ht0).
        split; [reflexivity|].
        exists (t1 ++ t0). now rewrite Ht0, app_assoc.
      * split; [assumption|].
        intros e He. split; [reflexivity|]. now apply Hraise.
      * split; [assumption | discriminate].
Qed.

End Listener.

(** ** Claims on the listener *)

(** C5: every error that escapes the suite of the [try] in the listener
    loop (raised by the retry wrapper around the receive, by decoding or
    by the local event bus) makes the iteration report the error, close
    the subscription and raise the same error; the listener ends there
    with that error: it polls no more and starts nothing again. *)
Theorem listener_error_is_fatal :
  forall (env : Env) (re : Broker -> bytes -> exn + option Event)
         (fuel : nat) (s s1 : State) (e : exn) (t1 : list action),
    listen_try env re fuel s = (Raise e, s1, t1) ->
    listen_iteration env re fuel s
    = (Raise e, s1, t1 ++ [LogException e; ClosePubSub])
    /\ forall n,
         _stopped (self s) = false ->
         _listen_messages env re (S n) fuel s
         = (Raise e, s1, t1 ++ [LogException e; ClosePubSub]).
Proof.
  intros env re fuel s s1 e t1 Htry.
  assert (Hiter : listen_iteration env re fuel s
                  = (Raise e, s1, t1 ++ [LogException e; ClosePubSub])).
  { rewrite listen_iteration_run, Htry. reflexivity. }
  split; [exact Hiter|].
  intros n Hflag. rewrite (listen_loop_step env re n fuel s Hflag), Hiter.
  reflexivity.
Qed.

Lemma listener_error_is_fatal_witness :
  exists s1,
    _listen_messages Examples.broken Codec.reconstitute_event 4 3
      (Examples.listening Examples.broker_a)
    = (Raise Examples.bad_subscription, s1,
       [GetMessage 1 (inl Examples.bad_subscription);
        LogException Examples.bad_subscription; ClosePubSub])
    /\ recv_calls s1 = 1.
Proof.
  eexists. split.
  - apply (proj2 (@listener_error_is_fatal Examples.broken
                    Codec.reconstitute_event 3
                    (Examples.listening Examples.broker_a) _
                    Examples.bad_subscription
                    [GetMessage 1 (inl Examples.bad_subscription)]
                    eq_refl) 3 eq_refl).
  - reflexivity.
Defined.

(** C6, as stated, fails: a listening broker whose subscription breaks
    on the third poll with an error that is not a connection error ends
    its listener with that error and closes the subscription, but the
    lifecycle flag still reads running ([_stopped] is false). *)
Lemma listener_crash_leaves_flag_running :
  match _listen_messages Examples.flaky Codec.reconstitute_event 5 3
          (Examples.listening Examples.broker_a) with
  | (r, s', t) =>
      r = Raise Examples.bad_subscription
      /\ t = [GetMessage 1 (inr None); GetMessage 1 (inr None);
              GetMessage 1 (inl Examples.bad_subscription);
              LogException Examples.bad_subscription; ClosePubSub]
      /\ _stopped (self s') = false
  end.
Proof.
  vm_compute. repeat split.
Qed.

(** C6, amended: an unrecoverable listener error ends the listener
    after the error has been reported and the subscription closed, and
    the listener writes no attribute of the broker: when no other task
    calls [stop()], the lifecycle flag still reads running after the
    listener has ended with the error. *)
Theorem listener_error_keeps_flag :
  forall (env : Env) (re : Broker -> bytes -> exn + option Event)
         (iterations fuel : nat) (s s' : State) (e : exn) (t : list action),
    (forall k, recv_stop (env_get_message env k) = false) ->
    _listen_messages env re iterations fuel s = (Raise e, s', t) ->
    self s' = self s
    /\ _stopped (self s') = false
    /\ exists t0, t = t0 ++ [LogException e; ClosePubSub].
Proof.
  intros env re iterations fuel s s' e t Hquiet Hrun.
  pose proof (listen_messages_frame env re fuel Hquiet iterations s) as Hframe.
  rewrite Hrun in Hframe. destruct Hframe as (Hself & Hraise).
  destruct (Hraise e eq_refl) as (Hflag & Hclosed).
  repeat split; [assumption | congruence | assumption].
Qed.

Lemma listener_error_keeps_flag_witness :
  exists s' t,
    _listen_messages Examples.flaky Codec.reconstitute_event 5 3
      (Examples.listening Examples.broker_a)
    = (Raise Examples.bad_subscription, s', t)
    /\ self s' = self (Examples.listening Examples.broker_a)
    /\ _stopped (self s') = false
    /\ exists t0, t = t0 ++ [LogException Examples.bad_subscription;
                             ClosePubSub].
Proof.
  eexists. eexists. split.
  - reflexivity.
  - apply (@listener_error_keeps_flag Examples.flaky Codec.reconstitute_event
             5 3 (Examples.listening Examples.broker_a)).
    + intros k. simpl. now destruct (k <? 2).
    + reflexivity.
Defined.

(** C8: in an iteration of the listener loop, a receive that times out
    with no message is not an error: the iteration returns normally
    after the polling alone, with no decoding and no delivery to the
    local event bus, and the loop goes on with its next iteration, which
    checks the stop flag and polls again; an iteration delivers an event
    to the local event bus only when the receive returned a message
    whose data are bytes and decoding them gave that event. *)
Theorem timeout_is_not_an_error :
  forall (env : Env) (re : Broker -> bytes -> exn + option Event)
         (fuel : nat) (s : State),
    (forall s1 t1,
       iterate fuel (_retry (self s)) 1
         (get_message env (stop_check_interval (self s))) s
       = (Ret None, s1, t1) ->
       listen_iteration env re fuel s = (Ret tt, s1, t1)
       /\ decodings t1 = []
       /\ local_deliveries t1 = []
       /\ forall n,
            _stopped (self s) = false ->
            _listen_messages env re (S n) fuel s
            = match _listen_messages env re n fuel s1 with
              | (r, s2, t2) => (r, s2, t1 ++ t2)
              end)
    /\ (forall r s' t ev,
          listen_iteration env re fuel s = (r, s', t) ->
          In ev (local_deliveries t) ->
          exists m payload s1 t1,
            iterate fuel (_retry (self s)) 1
              (get_message env (stop_check_interval (self s))) s
            = (Ret (Some m), s1, t1)
            /\ data m = DataBytes payload
            /\ re (self s1) payload = inr (Some ev)
            /\ local_deliveries t = [ev]).
Proof.
  intros env re fuel s.
  pose proof (iterate_get_message_frame env (self s)
                (stop_check_interval (self s)) fuel 1 s) as Hframe.
  pose proof (listen_try_cases env re fuel s) as Hcases.
  split.
  - intros s1 t1 Hpoll. rewrite Hpoll in Hframe.
    destruct Hframe as (Hpolls & _).
    destruct (poll_actions_deliver_nothing Hpolls) as (Hnone & Hdec).
    assert (Hiter : listen_iteration env re fuel s = (Ret tt, s1, t1)).
    { rewrite listen_iteration_run.
      now rewrite (listen_try_timeout env re fuel s Hpoll). }
    repeat split; try assumption.
    intros n Hflag.
    now rewrite (listen_loop_step env re n fuel s Hflag), Hiter.
  - intros r s' t ev Hiter Hin.
    rewrite listen_iteration_run in Hiter.
    destruct (iterate fuel (_retry (self s)) 1
                (get_message env (stop_check_interval (self s))) s)
      as [[[[m|]|e1|] s1] t1];
      destruct Hframe as (Hpolls & _);
      destruct (poll_actions_deliver_nothing Hpolls) as (Hnone & _).
    + destruct (data m) as [payload|str|n] eqn:Hdata.
      * destruct (re (self s1) payload) as [e2|[ev'|]] eqn:Hre.
        -- rewrite Hcases in Hiter. injection Hiter as <- <- <-.
           rewrite !local_deliveries_app, Hnone in Hin. destruct Hin.
        -- destruct Hcases as (s2 & Hrun & _). rewrite Hrun in Hiter.
           assert (Ht : local_deliveries t = [ev']).
           { destruct (env_publish_local env (local_calls s1));
               simpl in Hiter; injection Hiter as <- <- <-;
               rewrite !local_deliveries_app, Hnone; reflexivity. }
           rewrite Ht in Hin. destruct Hin as [<-|[]].
           exists m, payload, s1, t1. repeat split; assumption.
        -- rewrite Hcases in Hiter. injection Hiter as <- <- <-.
           rewrite !local_deliveries_app, Hnone in Hin. destruct Hin.
      * rewrite Hcases in Hiter. injection Hiter as <- <- <-.
        rewrite Hnone in Hin. destruct Hin.
      * rewrite Hcases in Hiter. injection Hiter as <- <- <-.
        rewrite Hnone in Hin. destruct Hin.
    + rewrite Hcases in Hiter. injection Hiter as <- <- <-.
      rewrite Hnone in Hin. destruct Hin.
    + rewrite Hcases in Hiter. injection Hiter as <- <- <-.
      rewrite !local_deliveries_app, Hnone in Hin. destruct Hin.
    + rewrite Hcases in Hiter. injection Hiter as <- <- <-.
      rewrite Hnone in Hin. destruct Hin.
Qed.

Lemma timeout_is_not_an_error_witness :
  exists s1,
    listen_iteration Examples.flaky Codec.reconstitute_event 3
      (Examples.listening Examples.broker_a)
    = (Ret tt, s1, [GetMessage 1 (inr None)])
    /\ recv_calls s1 = 1
    /\ _stopped (self s1) = false.
Proof.
  eexists. split.
  - apply (proj1 (@timeout_is_not_an_error Examples.flaky
                    Codec.reconstitute_event 3
                    (Examples.listening Examples.broker_a)) _
             [GetMessage 1 (inr None)] eq_refl).
  - split; reflexivity.
Defined.

(** ** The notification codec *)

Lemma bytes_eqb_refl (a : bytes) : bytes_eqb a a = true.
Proof.
  induction a as [|x a IH]; simpl; [reflexivity|].
  now rewrite (Byte.byte_dec_lb (eq_refl x)), IH.
Qed.

Lemma bytes_eqb_eq (a b : bytes) : bytes_eqb a b = true <-> a = b.
Proof.
  split.
  - revert b. induction a as [|x a IH]; intros [|y b] H; simpl in H;
      try discriminate; [reflexivity|].
    apply andb_true_iff in H. destruct H as (Hxy & Hab).
    f_equal; [now apply Byte.byte_dec_bl | now apply IH].
  - intros <-. apply bytes_eqb_refl.
Qed.

Lemma firstn_prefix (a b : bytes) : firstn (List.length a) (a ++ b) = a.
Proof.
  induction a as [|x a IH]; simpl; [reflexivity | now rewrite IH].
Qed.

Lemma skipn_prefix (a b : bytes) : skipn (List.length a) (a ++ b) = b.
Proof.
  induction a as [|x a IH]; simpl; [reflexivity | exact IH].
Qed.

(** Decoding, at any broker, the notification a broker generated. *)
Lemma reconstitute_generated (a b : Broker) (e : Event) :
  List.length (instance_id a) = Codec.origin_length ->
  Codec.reconstitute_event b (Codec.generate_notification a e)
  = inr (if bytes_eqb (instance_id a) (instance_id b) then None
         else deserialize (serializer b) (serialize (serializer a) e)).
Proof.
  intros Hlen. unfold Codec.reconstitute_event, Codec.generate_notification.
  rewrite length_app, Hlen.
  replace (Codec.origin_length + _ <? Codec.origin_length) with false
    by (symmetry; apply Nat.ltb_ge; lia).
  rewrite <- Hlen, firstn_prefix, skipn_prefix.
  now destruct (bytes_eqb (instance_id a) (instance_id b)).
Qed.

(** ** Claims on the codec and on the lifecycle *)

(** C1: for every event e the serializer can take there and back,
    decoding at a broker the notification generated for e gives e back,
    except when the notification carries the identifier of the decoding
    broker itself, where decoding gives none; a listener that receives
    the notification hands e to the local event bus in the first case
    and hands nothing in the second. *)
Theorem notification_round_trip :
  forall (a b : Broker) (e : Event),
    List.length (instance_id a) = Codec.origin_length ->
    deserialize (serializer b) (serialize (serializer a) e) = Some e ->
    Codec.reconstitute_event b (Codec.generate_notification a e)
    = inr (if bytes_eqb (instance_id a) (instance_id b) then None else Some e)
    /\ forall (env : Env) (fuel : nat) (s : State) (m : Message) (stp : bool),
         self s = b ->
         env_get_message env (recv_calls s) = mkRecv (inr (Some m)) stp ->
         data m = DataBytes (Codec.generate_notification a e) ->
         exists r s' t,
           listen_iteration env Codec.reconstitute_event (S fuel) s
           = (r, s', t)
           /\ decodings t = [Codec.generate_notification a e]
           /\ local_deliveries t
              = if bytes_eqb (instance_id a) (instance_id b) then []
                else [e].
Proof.
  intros a b e Hlen Hser.
  pose proof (reconstitute_generated a b e Hlen) as Hdec.
  rewrite Hser in Hdec.
  split; [exact Hdec|].
  intros env fuel s m stp Hself Hrecv Hdata.
  pose proof (get_message_run env (stop_check_interval (self s)) s) as Hrun.
  rewrite Hrecv in Hrun. simpl in Hrun.
  pose proof (iterate_returns (self s) _ fuel 1 s Hrun) as Hpoll.
  pose proof (listen_try_cases env Codec.reconstitute_event (S fuel) s)
    as Hcases.
  rewrite Hpoll, Hdata in Hcases.
  assert (Hdec' : Codec.reconstitute_event
                    (self {| self := if stp then set_stopped true (self s)
                                     else self s;
                             sub_calls := sub_calls s;
                             pub_calls := pub_calls s;
                             recv_calls := S (recv_calls s);
                             local_calls := local_calls s |})
                    (Codec.generate_notification a e)
                  = inr (if bytes_eqb (instance_id a) (instance_id b)
                         then None else Some e)).
  { rewrite <- Hdec, <- Hself. unfold Codec.reconstitute_event. simpl.
    now destruct stp. }
  rewrite Hdec' in Hcases.
  rewrite listen_iteration_run.
  destruct (bytes_eqb (instance_id a) (instance_id b)).
  - rewrite Hcases. do 3 eexists. split; [reflexivity|]. split; reflexivity.
  - destruct Hcases as (s2 & Htry & _). rewrite Htry.
    destruct (env_publish_local env _) as [e1|]; simpl;
      do 3 eexists; (split; [reflexivity|]); split; reflexivity.
Qed.

Lemma notification_round_trip_witness :
  Codec.reconstitute_event (self (Examples.listening Examples.broker_b))
    (Codec.generate_notification Examples.broker_a Examples.x1)
  = inr (Some Examples.x1)
  /\ exists r s' t,
       listen_iteration (Examples.delivering Examples.broker_a)
         Codec.reconstitute_event 1 (Examples.listening Examples.broker_b)
       = (r, s', t)
       /\ decodings t
          = [Codec.generate_notification Examples.broker_a Examples.x1]
       /\ local_deliveries t = [Examples.x1].
Proof.
  destruct (@notification_round_trip Examples.broker_a
              (self (Examples.listening Examples.broker_b)) Examples.x1
              eq_refl eq_refl) as [Hcodec Hlistener].
  split.
  - exact Hcodec.
  - exact (Hlistener (Examples.delivering Examples.broker_a) 0
             (Examples.listening Examples.broker_b) _ false
             eq_refl eq_refl eq_refl).
Defined.

(** C4: when subscribing to the channel fails during [start()],
    [start()] performs a forced stop and raises the error of the
    subscription; the stop flag reads stopped, no listener task has been
    launched and the group of tasks is released. *)
Theorem failed_subscription_aborts_start :
  forall (env : Env) (s : State) (e : exn),
    env_subscribe env (sub_calls s) = Some e ->
    exists s',
      start env s
      = (Raise e, s',
         [SuperStart; Subscribe (channel (self s)) (Some e); SuperStop true])
      /\ _stopped (self s') = true
      /\ _task_group (self s') = None.
Proof.
  intros env s e Hsub.
  unfold start, bind, try_except, super_start, stop_broker, super_stop,
    subscribe, get_self, modify_self, emit, raise.
  simpl. rewrite Hsub. simpl.
  eexists. split; [reflexivity|]. split; reflexivity.
Qed.

Lemma failed_subscription_aborts_start_witness :
  exists s',
    start Examples.refusing (Examples.fresh Examples.broker_a)
    = (Raise Examples.bad_subscription, s',
       [SuperStart; Subscribe "ev" (Some Examples.bad_subscription);
        SuperStop true])
    /\ _stopped (self s') = true
    /\ _task_group (self s') = None.
Proof.
  apply (@failed_subscription_aborts_start Examples.refusing
           (Examples.fresh Examples.broker_a) Examples.bad_subscription).
  reflexivity.
Defined.

(** C9: on a broker that was never started, [stop()], forced or not,
    returns normally and leaves the broker as it was constructed: the
    stop flag, true from construction, is still true and no other
    attribute has changed. *)
Theorem stop_before_start_is_noop :
  forall (ser : Serializer) (ch : string) (rs : RetrySettings)
         (interval : duration) (ident : bytes) (force : bool)
         (subs pubs recvs locals : nat),
    _stopped (new_broker ser ch rs interval ident) = true
    /\ stop_broker force
         (mkState (new_broker ser ch rs interval ident) subs pubs recvs locals)
       = (Ret tt,
          mkState (new_broker ser ch rs interval ident) subs pubs recvs locals,
          [SuperStop force]).
Proof.
  intros. split; reflexivity.
Qed.

(** ** Fuel *)


(** ** Further properties of the methods *)



(** X2: when subscribing succeeds, [start()] returns normally after it
    has started the underlying lifecycle, subscribed to the channel of
    the broker, cleared the stop flag and launched one listener task,
    named "Redis subscriber". *)
Theorem start_launches_the_listener :
  forall (env : Env) (s : State),
    env_subscribe env (sub_calls s) = None ->
    exists s',
      start env s
      = (Ret tt, s',
         [SuperStart; Subscribe (channel (self s)) None;
          StartSoon "Redis subscriber"])
      /\ _stopped (self s') = false
      /\ _task_group (self s') = Some ["Redis subscriber"%string].
Proof.
  intros env s Hsub.
  unfold start, bind, try_except, super_start, start_soon, subscribe,
    get_self, modify_self, emit.
  simpl. rewrite Hsub. simpl.
  eexists. split; [reflexivity|]. split; reflexivity.
Qed.

Lemma start_launches_the_listener_witness :
  exists s',
    start Examples.flaky (Examples.fresh Examples.broker_a)
    = (Ret tt, s',
       [SuperStart; Subscribe "ev" None; StartSoon "Redis subscriber"])
    /\ _stopped (self s') = false
    /\ _task_group (self s') = Some ["Redis subscriber"%string].
Proof.
  apply (@start_launches_the_listener Examples.flaky
           (Examples.fresh Examples.broker_a)).
  reflexivity.
Defined.

(** X3: when the receive raises connection errors on its first two
    calls and returns a message on the third, under a policy that does
    not stop at attempts 1 and 2, the iteration of the listener does
    not fail: it reports the two failures, sleeps after each, decodes
    the message and hands the event to the local event bus, once. *)
Theorem listener_survives_connection_errors :
  forall (env : Env) (re : Broker -> bytes -> exn + option Event)
         (fuel : nat) (s : State) (e1 e2 : exn) (m : Message)
         (payload : bytes) (ev : Event),
    env_get_message env (recv_calls s) = mkRecv (inl e1) false ->
    env_get_message env (S (recv_calls s)) = mkRecv (inl e2) false ->
    env_get_message env (S (S (recv_calls s)))
    = mkRecv (inr (Some m)) false ->
    is_connection_error e1 = true ->
    is_connection_error e2 = true ->
    stop (retry_settings (self s)) (mkRetryCallState 1 e1) = false ->
    stop (retry_settings (self s)) (mkRetryCallState 2 e2) = false ->
    data m = DataBytes payload ->
    re (self s) payload = inr (Some ev) ->
    env_publish_local env (local_calls s) = None ->
    exists s',
      listen_iteration env re (3 + fuel) s
      = (Ret tt, s',
         [GetMessage (stop_check_interval (self s)) (inl e1);
          LogWarning 1 e1;
          Sleep (wait (retry_settings (self s)) (mkRetryCallState 1 e1));
          GetMessage (stop_check_interval (self s)) (inl e2);
          LogWarning 2 e2;
          Sleep (wait (retry_settings (self s)) (mkRetryCallState 2 e2));
          GetMessage (stop_check_interval (self s)) (inr (Some m));
          ReconstituteEvent payload;
          PublishLocal ev None])
      /\ self s' = self s
      /\ recv_calls s' = 3 + recv_calls s
      /\ local_calls s' = 1 + local_calls s.
Proof.
  intros env re fuel s e1 e2 m payload ev H1 H2 H3 Hc1 Hc2 Hs1 Hs2
    Hdata Hre Hlocal.
  unfold listen_iteration, try_except, listen_try, bind, get_self.
  simpl. unfold try_except, get_message at 1. rewrite H1. simpl.
  rewrite Hc1. unfold bind, after_attempt, sleep, emit. simpl.
  rewrite Hs1. unfold try_except, get_message at 1. simpl. rewrite H2. simpl.
  rewrite Hc2. simpl. rewrite Hs2.
  unfold try_except, get_message. simpl. rewrite H3. simpl.
  rewrite Hdata. simpl. rewrite Hre. unfold publish_local. simpl.
  rewrite Hlocal. simpl.
  eexists. split; [reflexivity|]. repeat split.
Qed.

Lemma listener_survives_connection_errors_witness :
  exists s',
    listen_iteration (Examples.recovering Examples.broker_a)
      Codec.reconstitute_event 3 (Examples.listening Examples.broker_b)
    = (Ret tt, s',
       [GetMessage 1 (inl Examples.reset);
        LogWarning 1 Examples.reset;
        Sleep 5;
        GetMessage 1 (inl Examples.reset);
        LogWarning 2 Examples.reset;
        Sleep 5;
        GetMessage 1
          (inr (Some (mkMessage "message" "ev"
                        (DataBytes (Codec.generate_notification
                                      Examples.broker_a Examples.x1)))));
        ReconstituteEvent
          (Codec.generate_notification Examples.broker_a Examples.x1);
        PublishLocal Examples.x1 None])
    /\ self s' = self (Examples.listening Examples.broker_b)
    /\ recv_calls s' = 3
    /\ local_calls s' = 1.
Proof.
  apply (@listener_survives_connection_errors
           (Examples.recovering Examples.broker_a) Codec.reconstitute_event 0
           (Examples.listening Examples.broker_b) Examples.reset
           Examples.reset
           (mkMessage "message" "ev"
              (DataBytes (Codec.generate_notification Examples.broker_a
                            Examples.x1)))
           (Codec.generate_notification Examples.broker_a Examples.x1)
           Examples.x1);
    reflexivity.
Defined.

(** X4: when another task calls [stop()] while the listener waits in a
    receive that then times out, the listener ends normally with that
    iteration: it checks the flag, polls no more, reports nothing and
    does not close the subscription itself. *)
Theorem listener_stops_on_request :
  forall (env : Env) (re : Broker -> bytes -> exn + option Event)
         (n fuel : nat) (s : State),
    _stopped (self s) = false ->
    env_get_message env (recv_calls s) = mkRecv (inr None) true ->
    exists s',
      _listen_messages env re (2 + n) (1 + fuel) s
      = (Ret tt, s', [GetMessage (stop_check_interval (self s)) (inr None)])
      /\ self s' = set_stopped true (self s)
      /\ recv_calls s' = 1 + recv_calls s.
Proof.
  intros env re n fuel s Hflag Hrecv.
  pose proof (get_message_run env (stop_check_interval (self s)) s) as Hrun.
  rewrite Hrecv in Hrun. simpl in Hrun.
  pose proof (iterate_returns (self s) _ fuel 1 s Hrun) as Hpoll.
  pose proof (listen_try_timeout env re (S fuel) s Hpoll) as Htry.
  change (2 + n) with (S (S n)). change (1 + fuel) with (S fuel).
  rewrite (listen_loop_step env re (S n) (S fuel) s Hflag).
  rewrite listen_iteration_run, Htry.
  rewrite listen_loop_stopped by reflexivity.
  eexists. split; [reflexivity|]. split; reflexivity.
Qed.

Lemma listener_stops_on_request_witness :
  exists s',
    _listen_messages (Examples.recovering Examples.broker_a)
      Codec.reconstitute_event 2 1
      (mkState (self (Examples.listening Examples.broker_b)) 0 0 3 1)
    = (Ret tt, s', [GetMessage 1 (inr None)])
    /\ _stopped (self s') = true
    /\ recv_calls s' = 4.
Proof.
  destruct (@listener_stops_on_request
              (Examples.recovering Examples.broker_a)
              Codec.reconstitute_event 0 0
              (mkState (self (Examples.listening Examples.broker_b)) 0 0 3 1)
              eq_refl eq_refl) as (s' & Hrun & Hself & Hcalls).
  exists s'. split; [exact Hrun|]. split.
  - now rewrite Hself.
  - exact Hcalls.
Defined.

(** ** The publish path, whatever the server answers *)

Section PublishLoop.

Variable env : Env.
Variable me : Broker.
Variable ch : string.
Variable n : bytes.

(** Reasoning by cases on a retry loop around [client.publish]: fuel is
    out, the call is accepted, it fails with an error that is not
    retried, it fails at the attempt where the policy stops, or it fails
    and the loop goes on. *)
Lemma iterate_publish_ind
    (P : nat -> State -> Outcome unit * State * list action -> Prop) :
  (forall attempt s, P attempt s (OutOfFuel, s, [])) ->
  (forall attempt s,
     env_publish env (pub_calls s) = None ->
     P attempt s (Ret tt, after_publishes 1 s, [ClientPublish ch n None])) ->
  (forall attempt s e,
     env_publish env (pub_calls s) = Some e ->
     is_connection_error e = false ->
     P attempt s
       (Raise e, after_publishes 1 s, [ClientPublish ch n (Some e)])) ->
  (forall attempt s e,
     env_publish env (pub_calls s) = Some e ->
     is_connection_error e = true ->
     stop (retry_settings me) (mkRetryCallState attempt e) = true ->
     P attempt s
       (Raise e, after_publishes 1 s,
        [ClientPublish ch n (Some e); LogWarning attempt e])) ->
  (forall attempt s e r s' t,
     env_publish env (pub_calls s) = Some e ->
     is_connection_error e = true ->
     stop (retry_settings me) (mkRetryCallState attempt e) = false ->
     P (S attempt) (after_publishes 1 s) (r, s', t) ->
     P attempt s
       (r, s',
        ClientPublish ch n (Some e)
        :: LogWarning attempt e
        :: Sleep (wait (retry_settings me) (mkRetryCallState attempt e))
        :: t)) ->
  forall fuel attempt s,
    P attempt s (iterate fuel (_retry me) attempt (client_publish env ch n) s).
Proof.
  intros Hfuel Hok Hrejected Hgave_up Hagain.
  induction fuel as [|fuel IH]; intros attempt s.
  - apply Hfuel.
  - pose proof (client_publish_run env ch n s) as Hrun.
    destruct (env_publish env (pub_calls s)) as [e|] eqn:Henv.
    + destruct (is_connection_error e) eqn:Hconn.
      * destruct (stop (retry_settings me) (mkRetryCallState attempt e))
          eqn:Hstop.
        -- rewrite (iterate_gives_up me _ fuel attempt s Hrun Hconn Hstop).
           now apply Hgave_up.
        -- rewrite (iterate_tries_again me _ fuel attempt s Hrun Hconn Hstop).
           specialize (IH (S attempt) (after_publishes 1 s)).
           destruct (iterate fuel _ (S attempt) _ (after_publishes 1 s))
             as [[r s2] t2].
           now apply Hagain.
      * rewrite (iterate_rejects me _ fuel attempt s Hrun Hconn).
        now apply Hrejected.
    + rewrite (iterate_returns me _ fuel attempt s Hrun).
      now apply Hok.
Qed.

(** At most one call is accepted, and it ends the loop; a loop that
    raises raises the error of its last call. *)
Lemma iterate_publish_outcome (fuel attempt : nat) (s : State) :
  match iterate fuel (_retry me) attempt (client_publish env ch n) s with
  | (Ret _, _, t) =>
      exists t0,
        t = t0 ++ [ClientPublish ch n None] /\ successful_publishes t0 = []
  | (Raise e, _, t) =>
      successful_publishes t = []
      /\ exists t0 rest,
           t = t0 ++ ClientPublish ch n (Some e) :: rest
           /\ transport_publishes rest = []
  | (OutOfFuel, _, t) => successful_publishes t = []
  end.
Proof.
  apply (iterate_publish_ind
           (fun _ _ x =>
              match x with
              | (Ret _, _, t) =>
                  exists t0,
                    t = t0 ++ [ClientPublish ch n None]
                    /\ successful_publishes t0 = []
              | (Raise e, _, t) =>
                  successful_publishes t = []
                  /\ exists t0 rest,
                       t = t0 ++ ClientPublish ch n (Some e) :: rest
                       /\ transport_publishes rest = []
              | (OutOfFuel, _, t) => successful_publishes t = []
              end)).
  - reflexivity.
  - intros _ _ _. exists []. now split.
  - intros _ _ e _ _. split; [reflexivity|]. exists [], []. now split.
  - intros k _ e _ _ _. split; [reflexivity|].
    exists [], [LogWarning k e]. now split.
  - intros k s0 e [a|e'|] s' t _ _ _ IH.
    + destruct IH as (t0 & -> & Hnone).
      eexists (_ :: _ :: _ :: t0). split; [reflexivity | exact Hnone].
    + destruct IH as (Hnone & t0 & rest & -> & Hrest).
      split; [exact Hnone|].
      eexists (_ :: _ :: _ :: t0), rest. split; [reflexivity | exact Hrest].
    + exact IH.
Qed.

(** The loop leaves the broker object and the other collaborators
    alone, and its actions are transport calls, warnings and sleeps. *)
Lemma iterate_publish_frame (fuel attempt : nat) (s : State) :
  match iterate fuel (_retry me) attempt (client_publish env ch n) s with
  | (_, s', t) =>
      self s' = self s
      /\ sub_calls s' = sub_calls s
      /\ recv_calls s' = recv_calls s
      /\ local_calls s' = local_calls s
      /\ pub_calls s' = List.length (transport_publishes t) + pub_calls s
      /\ Forall (fun a => is_publish_action a = true) t
  end.
Proof.
  apply (iterate_publish_ind
           (fun _ s0 x =>
              match x with
              | (_, s', t) =>
                  self s' = self s0
                  /\ sub_calls s' = sub_calls s0
                  /\ recv_calls s' = recv_calls s0
                  /\ local_calls s' = local_calls s0
                  /\ pub_calls s'
                     = List.length (transport_publishes t) + pub_calls s0
                  /\ Forall (fun a => is_publish_action a = true) t
              end)).
  - intros _ s0. repeat split. constructor.
  - intros _ s0 _. repeat split. repeat constructor.
  - intros _ s0 e _ _. repeat split. repeat constructor.
  - intros k s0 e _ _ _. repeat split. repeat constructor.
  - intros k s0 e r s' t _ _ _ (Hself & Hsub & Hrecv & Hlocal & Hpub & Hact).
    simpl in *. repeat split; try assumption.
    + rewrite Hpub. lia.
    + repeat constructor. exact Hact.
Qed.

(** The warnings are numbered consecutively from the first attempt,
    each reports a connection error, the error of the transport call of
    that attempt; every warning but possibly the last is followed by a
    sleep, of the duration the policy gives for that attempt. *)
Lemma iterate_publish_reports (fuel attempt : nat) (s : State) :
  match iterate fuel (_retry me) attempt (client_publish env ch n) s with
  | (_, _, t) =>
      map fst (reported_failures t)
      = seq attempt (List.length (reported_failures t))
      /\ Forall (fun p => is_connection_error (snd p) = true)
           (reported_failures t)
      /\ map (fun p => Some (snd p)) (reported_failures t)
         = firstn (List.length (reported_failures t))
             (map snd (transport_publishes t))
      /\ waits t
         = map (fun p => wait (retry_settings me)
                           (mkRetryCallState (fst p) (snd p)))
             (firstn (List.length (waits t)) (reported_failures t))
      /\ List.length (waits t) <= List.length (reported_failures t)
      /\ List.length (reported_failures t) <= S (List.length (waits t))
      /\ List.length (reported_failures t)
         <= List.length (transport_publishes t)
      /\ List.length (transport_publishes t)
         <= S (List.length (reported_failures t))
  end.
Proof.
  apply (iterate_publish_ind
           (fun k _ x =>
              match x with
              | (_, _, t) =>
                  map fst (reported_failures t)
                  = seq k (List.length (reported_failures t))
                  /\ Forall (fun p => is_connection_error (snd p) = true)
                       (reported_failures t)
                  /\ map (fun p => Some (snd p)) (reported_failures t)
                     = firstn (List.length (reported_failures t))
                         (map snd (transport_publishes t))
                  /\ waits t
                     = map (fun p => wait (retry_settings me)
                                       (mkRetryCallState (fst p) (snd p)))
                         (firstn (List.length (waits t))
                            (reported_failures t))
                  /\ List.length (waits t)
                     <= List.length (reported_failures t)
                  /\ List.length (reported_failures t)
                     <= S (List.length (waits t))
                  /\ List.length (reported_failures t)
                     <= List.length (transport_publishes t)
                  /\ List.length (transport_publishes t)
                     <= S (List.length (reported_failures t))
              end)).
  - intros k s0. simpl. repeat split; auto.
  - intros k s0 _. simpl. repeat split; auto.
  - intros k s0 e _ _. simpl. repeat split; auto.
  - intros k s0 e _ Hconn _. simpl. repeat split; auto.
  - intros k s0 e r s' t _ Hconn _
      (Hnum & Hall & Herr & Hwait & Hle1 & Hle2 & Hle3 & Hle4).
    simpl. repeat split.
    + now rewrite Hnum.
    + constructor; assumption.
    + now rewrite Herr.
    + now rewrite <- Hwait.
    + lia.
    + lia.
    + lia.
    + lia.
Qed.

(** Under a policy that stops after [N] attempts the loop needs no more
    fuel than the attempts that are left, and makes no more calls. *)
Lemma iterate_publish_bounded (N : nat) :
  stop (retry_settings me) = stop_after_attempt N ->
  forall (fuel attempt : nat) (s : State),
    attempt <= N ->
    N < attempt + fuel ->
    match iterate fuel (_retry me) attempt (client_publish env ch n) s with
    | (r, _, t) =>
        r <> OutOfFuel
        /\ List.length (transport_publishes t) + attempt <= S N
    end.
Proof.
  intros Hstop.
  induction fuel as [|fuel IH]; intros attempt s Hle Hfuel; [lia|].
  pose proof (client_publish_run env ch n s) as Hrun.
  destruct (env_publish env (pub_calls s)) as [e|] eqn:Henv.
  - destruct (is_connection_error e) eqn:Hconn.
    + destruct (stop (retry_settings me) (mkRetryCallState attempt e))
        eqn:Hs.
      * rewrite (iterate_gives_up me _ fuel attempt s Hrun Hconn Hs).
        simpl. split; [discriminate | lia].
      * rewrite (iterate_tries_again me _ fuel attempt s Hrun Hconn Hs).
        rewrite Hstop in Hs. unfold stop_after_attempt in Hs. simpl in Hs.
        apply Nat.leb_gt in Hs.
        specialize (IH (S attempt) (after_publishes 1 s)).
        destruct (iterate fuel _ (S attempt) _ (after_publishes 1 s))
          as [[r s2] t2].
        destruct IH as (Hr & Hlen); [lia | lia |].
        simpl. split; [exact Hr | lia].
    + rewrite (iterate_rejects me _ fuel attempt s Hrun Hconn).
      simpl. split; [discriminate | lia].
  - rewrite (iterate_returns me _ fuel attempt s Hrun).
    simpl. split; [discriminate | lia].
Qed.

End PublishLoop.

(** X5: whatever the server answers and whatever the retry policy,
    [publish(event)] has at most one of its transport calls accepted:
    when it returns, exactly one call was accepted, it carried the
    notification of the event on the channel of the broker and it was
    the last action; when it raises, no call was accepted and the error
    raised is the one of the last transport call. *)
Theorem publish_is_accepted_at_most_once :
  forall (env : Env) (gn : Broker -> Event -> bytes) (fuel : nat)
         (ev : Event) (s : State),
    match publish env gn fuel ev s with
    | (Ret _, _, t) =>
        successful_publishes t = [(channel (self s), gn (self s) ev)]
        /\ exists t0,
             t = t0 ++ [ClientPublish (channel (self s)) (gn (self s) ev)
                          None]
    | (Raise e, _, t) =>
        successful_publishes t = []
        /\ exists t0 rest,
             t = t0 ++ ClientPublish (channel (self s)) (gn (self s) ev)
                         (Some e) :: rest
             /\ transport_publishes rest = []
    | (OutOfFuel, _, t) => successful_publishes t = []
    end.
Proof.
  intros env gn fuel ev s.
  unfold publish, bind, get_self, emit. simpl.
  pose proof (iterate_publish_outcome env (self s) (channel (self s))
                (gn (self s) ev) fuel 1 s) as Hloop.
  destruct (iterate fuel (_retry (self s)) 1
              (client_publish env (channel (self s)) (gn (self s) ev)) s)
    as [[[a|e|] s'] t]; simpl.
  - destruct Hloop as (t0 & -> & Hnone). split.
    + rewrite successful_publishes_app, Hnone. reflexivity.
    + exists (GenerateNotification ev :: t0). reflexivity.
  - destruct Hloop as (Hnone & t0 & rest & -> & Hrest).
    split; [exact Hnone|].
    exists (GenerateNotification ev :: t0), rest. now split.
  - exact Hloop.
Qed.

(** X6: under a retry policy that stops after N attempts (N >= 1),
    [publish(event)] ends, by returning or by raising, after at most N
    transport calls, whatever the server answers. *)
Theorem publish_ends_within_N_attempts :
  forall (env : Env) (gn : Broker -> Event -> bytes) (N fuel : nat)
         (ev : Event) (s : State),
    stop (retry_settings (self s)) = stop_after_attempt N ->
    1 <= N ->
    N <= fuel ->
    exists r s' t,
      publish env gn fuel ev s = (r, s', t)
      /\ r <> OutOfFuel
      /\ 1 <= List.length (transport_publishes t) <= N
      /\ pub_calls s' = List.length (transport_publishes t) + pub_calls s.
Proof.
  intros env gn N fuel ev s Hstop HN Hfuel.
  unfold publish, bind, get_self, emit. simpl.
  pose proof (iterate_publish_bounded env (self s) (channel (self s))
                (gn (self s) ev) Hstop fuel (attempt:=1) s HN) as Hbound.
  pose proof (iterate_publish_frame env (self s) (channel (self s))
                (gn (self s) ev) fuel 1 s) as Hframe.
  pose proof (iterate_publish_outcome env (self s) (channel (self s))
                (gn (self s) ev) fuel 1 s) as Hout.
  destruct (iterate fuel (_retry (self s)) 1
              (client_publish env (channel (self s)) (gn (self s) ev)) s)
    as [[r s'] t].
  destruct Hbound as (Hr & Hlen); [lia|].
  destruct Hframe as (_ & _ & _ & _ & Hpub & _).
  exists r, s', (GenerateNotification ev :: t). split; [reflexivity|].
  split; [exact Hr|]. simpl. split; [|exact Hpub].
  split; [|lia].
  destruct r as [a|e|]; [ | | congruence].
  - destruct Hout as (t0 & -> & _).
    rewrite transport_publishes_app, length_app. simpl. lia.
  - destruct Hout as (_ & t0 & rest & -> & _).
    rewrite transport_publishes_app, length_app. simpl. lia.
Qed.

Lemma publish_ends_within_N_attempts_witness :
  exists r s' t,
    publish Examples.refusing Codec.generate_notification 3 Examples.x1
      (Examples.fresh Examples.broker_a)
    = (r, s', t)
    /\ r <> OutOfFuel
    /\ 1 <= List.length (transport_publishes t) <= 3
    /\ pub_calls s' = List.length (transport_publishes t) + 0.
Proof.
  apply (@publish_ends_within_N_attempts Examples.refusing
           Codec.generate_notification 3 3 Examples.x1
           (Examples.fresh Examples.broker_a)).
  - reflexivity.
  - lia.
  - lia.
Defined.

(** X7: [publish(event)] only talks to the transport and the logger:
    it leaves every attribute of the broker as it was (the stop flag
    included), calls neither the subscription nor the local event bus,
    and the only actions it performs are the encoding, transport
    publishes, warnings and sleeps. *)
Theorem publish_leaves_the_broker_alone :
  forall (env : Env) (gn : Broker -> Event -> bytes) (fuel : nat)
         (ev : Event) (s : State),
    match publish env gn fuel ev s with
    | (_, s', t) =>
        self s' = self s
        /\ sub_calls s' = sub_calls s
        /\ recv_calls s' = recv_calls s
        /\ local_calls s' = local_calls s
        /\ Forall (fun a => is_publish_action a = true) t
        /\ local_deliveries t = []
        /\ polls t = []
    end.
Proof.
  intros env gn fuel ev s.
  unfold publish, bind, get_self, emit. simpl.
  pose proof (iterate_publish_frame env (self s) (channel (self s))
                (gn (self s) ev) fuel 1 s) as Hframe.
  destruct (iterate fuel (_retry (self s)) 1
              (client_publish env (channel (self s)) (gn (self s) ev)) s)
    as [[r s'] t].
  destruct Hframe as (Hself & Hsub & Hrecv & Hlocal & _ & Hact).
  simpl. repeat split; try assumption.
  - constructor; [reflexivity | exact Hact].
  - clear - Hact. induction Hact as [|a t Ha _ IH]; [reflexivity|].
    destruct a; try discriminate; exact IH.
  - clear - Hact. induction Hact as [|a t Ha _ IH]; [reflexivity|].
    destruct a; try discriminate; exact IH.
Qed.

(** X8: the warnings of a call to [publish] are numbered 1, 2, 3, ...
    without gap; the k-th warning reports the error of the k-th
    transport call and that error is a connection error; every failed
    call is reported except a last one that is not a connection error;
    each warning except possibly the last is followed by one sleep, of
    the duration the [wait] strategy gives for that attempt and
    error. *)
Theorem publish_warnings_are_numbered :
  forall (env : Env) (gn : Broker -> Event -> bytes) (fuel : nat)
         (ev : Event) (s : State),
    match publish env gn fuel ev s with
    | (_, _, t) =>
        map fst (reported_failures t)
        = seq 1 (List.length (reported_failures t))
        /\ Forall (fun p => is_connection_error (snd p) = true)
             (reported_failures t)
        /\ map (fun p => Some (snd p)) (reported_failures t)
           = firstn (List.length (reported_failures t))
               (map snd (transport_publishes t))
        /\ waits t
           = map (fun p => wait (retry_settings (self s))
                             (mkRetryCallState (fst p) (snd p)))
               (firstn (List.length (waits t)) (reported_failures t))
        /\ List.length (waits t) <= List.length (reported_failures t)
           <= S (List.length (waits t))
        /\ List.length (reported_failures t)
           <= List.length (transport_publishes t)
           <= S (List.length (reported_failures t))
    end.
Proof.
  intros env gn fuel ev s.
  unfold publish, bind, get_self, emit. simpl.
  pose proof (iterate_publish_reports env (self s) (channel (self s))
                (gn (self s) ev) fuel 1 s) as Hrep.
  destruct (iterate fuel (_retry (self s)) 1
              (client_publish env (channel (self s)) (gn (self s) ev)) s)
    as [[r s'] t].
  destruct Hrep as (Hnum & Hall & Herr & Hwait & Hle1 & Hle2 & Hle3 & Hle4).
  simpl. repeat split; assumption.
Qed.

(** ** The listener, whatever the subscription delivers *)

Lemma polls_app (t1 t2 : list action) : polls (t1 ++ t2) = polls t1 ++ polls t2.
Proof. apply flat_map_app. Qed.

Lemma received_messages_app (t1 t2 : list action) :
  received_messages (t1 ++ t2) = received_messages t1 ++ received_messages t2.
Proof. apply flat_map_app. Qed.

Lemma poll_actions_are_listen_actions (t : list action) :
  Forall (fun a => is_poll_action a = true) t ->
  Forall (fun a => is_listen_action a = true) t.
Proof.
  apply Forall_impl. intros a Ha. now destruct a.
Qed.

Lemma recv_calls_after_polls (env : Env) (j : nat) :
  forall s, recv_calls (after_polls env j s) = j + recv_calls s.
Proof.
  induction j as [|j IH]; intros s; simpl; [reflexivity|].
  rewrite IH. simpl. lia.
Qed.

Section PollLoop.

Variable env : Env.
Variable me : Broker.
Variable timeout : duration.

Lemma get_message_after_poll (s : State) :
  get_message env timeout s
  = (match recv_result (env_get_message env (recv_calls s)) with
     | inl e => Raise e
     | inr m => Ret m
     end,
     after_poll env s,
     [GetMessage timeout (recv_result (env_get_message env (recv_calls s)))]).
Proof. reflexivity. Qed.

(** Reasoning by cases on a retry loop around [get_message]. *)
Lemma iterate_poll_ind
    (P : nat -> State -> Outcome (option Message) * State * list action
         -> Prop) :
  (forall attempt s, P attempt s (OutOfFuel, s, [])) ->
  (forall attempt s m,
     recv_result (env_get_message env (recv_calls s)) = inr m ->
     P attempt s (Ret m, after_poll env s, [GetMessage timeout (inr m)])) ->
  (forall attempt s e,
     recv_result (env_get_message env (recv_calls s)) = inl e ->
     is_connection_error e = false ->
     P attempt s (Raise e, after_poll env s, [GetMessage timeout (inl e)])) ->
  (forall attempt s e,
     recv_result (env_get_message env (recv_calls s)) = inl e ->
     is_connection_error e = true ->
     stop (retry_settings me) (mkRetryCallState attempt e) = true ->
     P attempt s
       (Raise e, after_poll env s,
        [GetMessage timeout (inl e); LogWarning attempt e])) ->
  (forall attempt s e r s' t,
     recv_result (env_get_message env (recv_calls s)) = inl e ->
     is_connection_error e = true ->
     stop (retry_settings me) (mkRetryCallState attempt e) = false ->
     P (S attempt) (after_poll env s) (r, s', t) ->
     P attempt s
       (r, s',
        GetMessage timeout (inl e)
        :: LogWarning attempt e
        :: Sleep (wait (retry_settings me) (mkRetryCallState attempt e))
        :: t)) ->
  forall fuel attempt s,
    P attempt s (iterate fuel (_retry me) attempt (get_message env timeout) s).
Proof.
  intros Hfuel Hok Hrejected Hgave_up Hagain.
  induction fuel as [|fuel IH]; intros attempt s.
  - apply Hfuel.
  - pose proof (get_message_after_poll s) as Hrun.
    destruct (recv_result (env_get_message env (recv_calls s))) as [e|m]
      eqn:Henv.
    + destruct (is_connection_error e) eqn:Hconn.
      * destruct (stop (retry_settings me) (mkRetryCallState attempt e))
          eqn:Hstop.
        -- rewrite (iterate_gives_up me _ fuel attempt s Hrun Hconn Hstop).
           now apply Hgave_up.
        -- rewrite (iterate_tries_again me _ fuel attempt s Hrun Hconn Hstop).
           specialize (IH (S attempt) (after_poll env s)).
           destruct (iterate fuel _ (S attempt) _ (after_poll env s))
             as [[r s2] t2].
           now apply Hagain.
      * rewrite (iterate_rejects me _ fuel attempt s Hrun Hconn).
        now apply Hrejected.
    + rewrite (iterate_returns me _ fuel attempt s Hrun).
      now apply Hok.
Qed.

(** The loop returns the message of its last call, the only one a call
    of the loop returned; it keeps what a decoder that does not read
    the stop flag decodes. *)
Lemma iterate_poll_received (re : Broker -> bytes -> exn + option Event)
    (fuel attempt : nat) (s : State) :
  (forall b p, re (set_stopped true b) p = re b p) ->
  match iterate fuel (_retry me) attempt (get_message env timeout) s with
  | (r, s', t) =>
      received_messages t
      = match r with
        | Ret (Some m) => [m]
        | _ => []
        end
      /\ Forall (fun a => is_poll_action a = true) t
      /\ forall p, re (self s') p = re (self s) p
  end.
Proof.
  intros Hre.
  assert (Hpoll : forall s0 p, re (self (after_poll env s0)) p
                               = re (self s0) p).
  { intros s0 p. unfold after_poll. simpl.
    destruct (recv_stop _); [apply Hre | reflexivity]. }
  apply (iterate_poll_ind
           (fun _ s0 x =>
              match x with
              | (r, s', t) =>
                  received_messages t
                  = match r with
                    | Ret (Some m) => [m]
                    | _ => []
                    end
                  /\ Forall (fun a => is_poll_action a = true) t
                  /\ forall p, re (self s') p = re (self s0) p
              end)).
  - intros _ s0. repeat split. constructor.
  - intros _ s0 [m|] _; (split; [reflexivity|]);
      (split; [repeat constructor | apply Hpoll]).
  - intros _ s0 e _ _. split; [reflexivity|].
    split; [repeat constructor | apply Hpoll].
  - intros k s0 e _ _ _. split; [reflexivity|].
    split; [repeat constructor | apply Hpoll].
  - intros k s0 e r s' t _ _ _ (Hrecv & Hact & Hdec).
    split; [exact Hrecv|]. split; [repeat constructor; exact Hact|].
    intros p. now rewrite Hdec, Hpoll.
Qed.

End PollLoop.

(** [j] failed receives that are retried, then the rest of the loop. *)
Lemma iterate_failed_polls (env : Env) (me : Broker) (errs : nat -> exn)
    (j : nat) :
  forall (fuel attempt : nat) (s : State),
    (forall i, i < j ->
       recv_result (env_get_message env (recv_calls s + i))
       = inl (errs (recv_calls s + i))
       /\ is_connection_error (errs (recv_calls s + i)) = true
       /\ stop (retry_settings me)
            (mkRetryCallState (attempt + i) (errs (recv_calls s + i)))
          = false) ->
    iterate (j + fuel) (_retry me) attempt
      (get_message env (stop_check_interval me)) s
    = match iterate fuel (_retry me) (attempt + j)
              (get_message env (stop_check_interval me))
              (after_polls env j s) with
      | (r, s', t) =>
          (r, s', failed_polls me errs (recv_calls s) attempt j ++ t)
      end.
Proof.
  induction j as [|j IH]; intros fuel attempt s Hfail.
  - rewrite Nat.add_0_r. simpl.
    now destruct (iterate fuel _ attempt _ s) as [[r s'] t].
  - destruct (Hfail 0 (Nat.lt_0_succ j)) as (Henv & Hconn & Hstop).
    rewrite !Nat.add_0_r in *.
    change (S j + fuel) with (S (j + fuel)).
    pose proof (get_message_after_poll env (stop_check_interval me) s) as Hrun.
    rewrite Henv in Hrun.
    rewrite (iterate_tries_again me _ (j + fuel) attempt s Hrun Hconn Hstop).
    rewrite IH.
    + rewrite Nat.add_succ_r.
      change (S attempt + j) with (S (attempt + j)). simpl after_polls.
      destruct (iterate fuel _ (S (attempt + j)) _
                  (after_polls env j (after_poll env s))) as [[r s'] t].
      reflexivity.
    + intros i Hi. simpl.
      specialize (Hfail (S i) (proj1 (Nat.succ_lt_mono i j) Hi)).
      rewrite !Nat.add_succ_r in Hfail. exact Hfail.
Qed.

Lemma failed_polls_observed (me : Broker) (errs : nat -> exn) (j : nat) :
  forall call attempt,
    List.length (polls (failed_polls me errs call attempt j)) = j
    /\ reported_failures (failed_polls me errs call attempt j)
       = map (fun i => (attempt + i, errs (call + i))) (seq 0 j)
    /\ local_deliveries (failed_polls me errs call attempt j) = []
    /\ decodings (failed_polls me errs call attempt j) = [].
Proof.
  induction j as [|j IH]; intros call attempt; simpl; [now repeat split|].
  destruct (IH (S call) (S attempt)) as (Hp & Hr & Hl & Hd).
  repeat split; try assumption.
  - now rewrite Hp.
  - rewrite Hr, <- seq_shift, map_map, !Nat.add_0_r. f_equal.
    apply map_ext. intros i. now rewrite !Nat.add_succ_r.
Qed.

Section ListenerShape.

Variable env : Env.
Variable re : Broker -> bytes -> exn + option Event.

(** One iteration, by cases on the outcome of the poll, of the decoding
    and of the delivery. *)
Lemma listen_iteration_cases (fuel : nat) (s : State) :
  match iterate fuel (_retry (self s)) 1
          (get_message env (stop_check_interval (self s))) s with
  | (Ret (Some m), s1, t1) =>
      match data m with
      | DataBytes payload =>
          match re (self s1) payload with
          | inl e =>
              listen_iteration env re fuel s
              = (Raise e, s1,
                 t1 ++ [ReconstituteEvent payload; LogException e;
                        ClosePubSub])
          | inr (Some ev) =>
              match env_publish_local env (local_calls s1) with
              | Some e =>
                  listen_iteration env re fuel s
                  = (Raise e, after_delivery s1,
                     t1 ++ [ReconstituteEvent payload;
                            PublishLocal ev (Some e); LogException e;
                            ClosePubSub])
              | None =>
                  listen_iteration env re fuel s
                  = (Ret tt, after_delivery s1,
                     t1 ++ [ReconstituteEvent payload; PublishLocal ev None])
              end
          | inr None =>
              listen_iteration env re fuel s
              = (Ret tt, s1, t1 ++ [ReconstituteEvent payload])
          end
      | _ => listen_iteration env re fuel s = (Ret tt, s1, t1)
      end
  | (Ret None, s1, t1) => listen_iteration env re fuel s = (Ret tt, s1, t1)
  | (Raise e, s1, t1) =>
      listen_iteration env re fuel s
      = (Raise e, s1, t1 ++ [LogException e; ClosePubSub])
  | (OutOfFuel, s1, t1) =>
      listen_iteration env re fuel s = (OutOfFuel, s1, t1)
  end.
Proof.
  unfold listen_iteration, try_except, listen_try, bind, get_self. simpl.
  destruct (iterate fuel (_retry (self s)) 1
              (get_message env (stop_check_interval (self s))) s)
    as [[[[m|]|e|] s1] t1]; simpl; unfold ret; rewrite ?app_nil_r; auto.
  destruct (data m) as [payload|str|n]; simpl; rewrite ?app_nil_r; auto.
  destruct (re (self s1) payload) as [e|[ev|]]; simpl;
    rewrite <- ?app_assoc; auto.
  unfold publish_local.
  destruct (env_publish_local env (local_calls s1)) as [e|]; simpl;
    rewrite <- ?app_assoc; reflexivity.
Qed.

End ListenerShape.

Section ListenerInvariants.

Variable env : Env.
Variable re : Broker -> bytes -> exn + option Event.

(** One iteration hands to the local bus what the message it received
    decodes to, and nothing else. *)
Lemma listen_iteration_deliveries (fuel : nat) (s : State) :
  (forall b p, re (set_stopped true b) p = re b p) ->
  match listen_iteration env re fuel s with
  | (_, s', t) =>
      local_deliveries t
      = flat_map (deliverable re (self s)) (received_messages t)
      /\ forall p, re (self s') p = re (self s) p
  end.
Proof.
  intros Hre.
  pose proof (listen_iteration_cases env re fuel s) as Hcases.
  pose proof (iterate_poll_received env (self s)
                (stop_check_interval (self s)) re fuel 1 s Hre) as Hpoll.
  destruct (iterate fuel (_retry (self s)) 1
              (get_message env (stop_check_interval (self s))) s)
    as [[r s1] t1].
  destruct Hpoll as (Hrecv & Hact & Hdec).
  destruct (poll_actions_deliver_nothing Hact) as (Hnone & _).
  destruct r as [[m|]|e|].
  - destruct (data m) as [payload|str|n] eqn:Hdata.
    + destruct (re (self s1) payload) as [e|[ev|]] eqn:Hpay.
      * rewrite Hcases, local_deliveries_app, received_messages_app, Hnone,
          Hrecv.
        simpl. unfold deliverable. rewrite Hdata, <- (Hdec payload), Hpay.
        now split.
      * destruct (env_publish_local env (local_calls s1)); rewrite Hcases,
          local_deliveries_app, received_messages_app, Hnone, Hrecv; simpl;
          unfold deliverable; rewrite Hdata, <- (Hdec payload), Hpay;
          now split.
      * rewrite Hcases, local_deliveries_app, received_messages_app, Hnone,
          Hrecv.
        simpl. unfold deliverable. rewrite Hdata, <- (Hdec payload), Hpay.
        now split.
    + rewrite Hcases, Hnone, Hrecv. simpl. unfold deliverable.
      rewrite Hdata. now split.
    + rewrite Hcases, Hnone, Hrecv. simpl. unfold deliverable.
      rewrite Hdata. now split.
  - rewrite Hcases, Hnone, Hrecv. now split.
  - rewrite Hcases, local_deliveries_app, received_messages_app, Hnone, Hrecv.
    now split.
  - rewrite Hcases, Hnone, Hrecv. now split.
Qed.

(** One iteration performs listener actions only; when it raises, they
    are followed by the report of the error and the closing of the
    subscription. *)
Lemma listen_iteration_actions (fuel : nat) (s : State) :
  match listen_iteration env re fuel s with
  | (Raise e, _, t) =>
      exists t0,
        t = t0 ++ [LogException e; ClosePubSub]
        /\ Forall (fun a => is_listen_action a = true) t0
  | (_, _, t) => Forall (fun a => is_listen_action a = true) t
  end.
Proof.
  pose proof (listen_iteration_cases env re fuel s) as Hcases.
  pose proof (iterate_get_message_frame env (self s)
                (stop_check_interval (self s)) fuel 1 s) as Hframe.
  destruct (iterate fuel (_retry (self s)) 1
              (get_message env (stop_check_interval (self s))) s)
    as [[r s1] t1].
  destruct Hframe as (Hact & _).
  apply poll_actions_are_listen_actions in Hact.
  destruct r as [[m|]|e|].
  - destruct (data m) as [payload|str|n].
    + destruct (re (self s1) payload) as [e|[ev|]].
      * rewrite Hcases. exists (t1 ++ [ReconstituteEvent payload]).
        split; [now rewrite <- app_assoc|].
        apply Forall_app. split; [assumption | repeat constructor].
      * destruct (env_publish_local env (local_calls s1)) as [e|];
          rewrite Hcases.
        -- exists (t1 ++ [ReconstituteEvent payload;
                          PublishLocal ev (Some e)]).
           split; [now rewrite <- app_assoc|].
           apply Forall_app. split; [assumption | repeat constructor].
        -- apply Forall_app. split; [assumption | repeat constructor].
      * rewrite Hcases.
        apply Forall_app. split; [assumption | repeat constructor].
    + now rewrite Hcases.
    + now rewrite Hcases.
  - now rewrite Hcases.
  - rewrite Hcases. exists t1. now split.
  - now rewrite Hcases.
Qed.

End ListenerInvariants.

(** ** Further properties of the listener *)

(** X9: a received message that cannot be forwarded is dropped without
    harm: when its data are not bytes, or when they are bytes that
    decode to none, the iteration returns normally with the one poll,
    no delivery to the local bus and no report, and the loop goes on
    with its next iteration. *)
Theorem listener_drops_what_it_cannot_forward :
  forall (env : Env) (re : Broker -> bytes -> exn + option Event)
         (fuel : nat) (s : State) (m : Message) (stp : bool),
    env_get_message env (recv_calls s) = mkRecv (inr (Some m)) stp ->
    match data m with
    | DataBytes payload => re (self (after_poll env s)) payload = inr None
    | _ => True
    end ->
    exists t,
      listen_iteration env re (S fuel) s = (Ret tt, after_poll env s, t)
      /\ polls t = [inr (Some m)]
      /\ local_deliveries t = []
      /\ reported_failures t = []
      /\ forall n,
           _stopped (self s) = false ->
           _listen_messages env re (S n) (S fuel) s
           = match _listen_messages env re n (S fuel) (after_poll env s) with
             | (r, s2, t2) => (r, s2, t ++ t2)
             end.
Proof.
  intros env re fuel s m stp Hrecv Hdrop.
  pose proof (get_message_after_poll env (stop_check_interval (self s)) s)
    as Hrun.
  rewrite Hrecv in Hrun. simpl in Hrun.
  pose proof (iterate_returns (self s) _ fuel 1 s Hrun) as Hpoll.
  pose proof (listen_iteration_cases env re (S fuel) s) as Hcases.
  rewrite Hpoll in Hcases.
  assert (Hloop : forall t,
            listen_iteration env re (S fuel) s
            = (Ret tt, after_poll env s, t) ->
            forall n,
              _stopped (self s) = false ->
              _listen_messages env re (S n) (S fuel) s
              = match _listen_messages env re n (S fuel) (after_poll env s)
                with
                | (r, s2, t2) => (r, s2, t ++ t2)
                end).
  { intros t Hiter n Hflag.
    now rewrite (listen_loop_step env re n (S fuel) s Hflag), Hiter. }
  destruct (data m) as [payload|str|k].
  - rewrite Hdrop in Hcases. eexists. split; [exact Hcases|].
    repeat split. now apply Hloop.
  - eexists. split; [exact Hcases|]. repeat split. now apply Hloop.
  - eexists. split; [exact Hcases|]. repeat split. now apply Hloop.
Qed.

Lemma listener_drops_what_it_cannot_forward_witness :
  exists t,
    listen_iteration (Examples.noisy Examples.broker_a)
      Codec.reconstitute_event 1 (Examples.listening Examples.broker_b)
    = (Ret tt,
       after_poll (Examples.noisy Examples.broker_a)
         (Examples.listening Examples.broker_b), t)
    /\ polls t = [inr (Some (mkMessage "message" "ev" (DataStr "text")))]
    /\ local_deliveries t = []
    /\ reported_failures t = []
    /\ forall n,
         _stopped (self (Examples.listening Examples.broker_b)) = false ->
         _listen_messages (Examples.noisy Examples.broker_a)
           Codec.reconstitute_event (S n) 1
           (Examples.listening Examples.broker_b)
         = match _listen_messages (Examples.noisy Examples.broker_a)
                   Codec.reconstitute_event n 1
                   (after_poll (Examples.noisy Examples.broker_a)
                      (Examples.listening Examples.broker_b)) with
           | (r, s2, t2) => (r, s2, t ++ t2)
           end.
Proof.
  apply (@listener_drops_what_it_cannot_forward
           (Examples.noisy Examples.broker_a) Codec.reconstitute_event 0
           (Examples.listening Examples.broker_b)
           (mkMessage "message" "ev" (DataStr "text")) false).
  - reflexivity.
  - exact I.
Defined.

(** X10: with a decoder that does not read the stop flag, the events
    the listener hands to the local bus are, in the same order and once
    each, the events that the messages it received decode to: a message
    whose data are not bytes, or whose bytes decode to none or make the
    decoder fail, gives no delivery, and nothing else is delivered. *)
Theorem listener_delivers_in_order :
  forall (env : Env) (re : Broker -> bytes -> exn + option Event)
         (n fuel : nat) (s : State),
    (forall b p, re (set_stopped true b) p = re b p) ->
    match _listen_messages env re n fuel s with
    | (_, _, t) =>
        local_deliveries t
        = flat_map (deliverable re (self s)) (received_messages t)
    end.
Proof.
  intros env re n fuel s Hre.
  assert (Hgen : forall k s0,
            match _listen_messages env re k fuel s0 with
            | (_, _, t) =>
                local_deliveries t
                = flat_map (deliverable re (self s0)) (received_messages t)
            end).
  { induction k as [|k IH]; intros s0; [reflexivity|].
    destruct (_stopped (self s0)) eqn:Hflag.
    - now rewrite (listen_loop_stopped env re k fuel s0 Hflag).
    - rewrite (listen_loop_step env re k fuel s0 Hflag).
      pose proof (listen_iteration_deliveries env re fuel s0 Hre) as Hiter.
      destruct (listen_iteration env re fuel s0) as [[[a|e|] s1] t1];
        destruct Hiter as (Hdel & Hdec); try exact Hdel.
      specialize (IH s1).
      destruct (_listen_messages env re k fuel s1) as [[r s2] t2].
      rewrite local_deliveries_app, received_messages_app, flat_map_app,
        Hdel, IH.
      f_equal. apply flat_map_ext. intros m. unfold deliverable.
      destruct (data m); [|reflexivity|reflexivity]. now rewrite Hdec. }
  apply Hgen.
Qed.

Lemma listener_delivers_in_order_witness :
  match _listen_messages (Examples.recovering Examples.broker_a)
          Codec.reconstitute_event 5 3
          (Examples.listening Examples.broker_b) with
  | (_, _, t) =>
      local_deliveries t
      = flat_map (deliverable Codec.reconstitute_event
                    (self (Examples.listening Examples.broker_b)))
          (received_messages t)
  end.
Proof.
  apply (@listener_delivers_in_order (Examples.recovering Examples.broker_a)
           Codec.reconstitute_event 5 3
           (Examples.listening Examples.broker_b)).
  intros b p. reflexivity.
Defined.

(** X11: the listener performs nothing but polls, warnings, sleeps,
    decodings and deliveries to the local bus (no transport publish, no
    subscription, no lifecycle call), except that, when it ends with an
    error, and only then, its last two actions are the report of that
    error and the closing of the subscription; a listener that ends
    because the stop flag is set does not close the subscription. *)
Theorem listener_closes_only_on_error :
  forall (env : Env) (re : Broker -> bytes -> exn + option Event)
         (n fuel : nat) (s : State),
    match _listen_messages env re n fuel s with
    | (Raise e, _, t) =>
        exists t0,
          t = t0 ++ [LogException e; ClosePubSub]
          /\ Forall (fun a => is_listen_action a = true) t0
    | (_, _, t) => Forall (fun a => is_listen_action a = true) t
    end.
Proof.
  intros env re n fuel. induction n as [|n IH]; intros s.
  - constructor.
  - destruct (_stopped (self s)) eqn:Hflag.
    + rewrite (listen_loop_stopped env re n fuel s Hflag). constructor.
    + rewrite (listen_loop_step env re n fuel s Hflag).
      pose proof (listen_iteration_actions env re fuel s) as Hiter.
      destruct (listen_iteration env re fuel s) as [[[a|e|] s1] t1];
        try exact Hiter.
      specialize (IH s1).
      destruct (_listen_messages env re n fuel s1) as [[[a2|e2|] s2] t2].
      * apply Forall_app. now split.
      * destruct IH as (t0 & -> & Hact).
        exists (t1 ++ t0). split; [now rewrite app_assoc|].
        apply Forall_app. now split.
      * apply Forall_app. now split.
Qed.

(** X12: under a retry policy that stops after N attempts (N >= 1) and
    a subscription whose receive always fails with a connection error,
    an iteration of the listener polls exactly N times, reports each of
    the N failures, delivers nothing, then reports the last error as
    the crash of the listener, closes the subscription and raises that
    error, which ends the listener. *)
Theorem listener_gives_up_after_N_failed_receives :
  forall (env : Env) (re : Broker -> bytes -> exn + option Event)
         (N : nat) (errs : nat -> exn) (fuel : nat) (s : State),
    stop (retry_settings (self s)) = stop_after_attempt N ->
    1 <= N ->
    N <= fuel ->
    (forall k, recv_result (env_get_message env k) = inl (errs k)
               /\ is_connection_error (errs k) = true) ->
    exists s' t0,
      listen_iteration env re fuel s
      = (Raise (errs (recv_calls s + (N - 1))), s',
         t0 ++ [LogException (errs (recv_calls s + (N - 1))); ClosePubSub])
      /\ List.length (polls t0) = N
      /\ recv_calls s' = N + recv_calls s
      /\ reported_failures t0
         = map (fun i => (1 + i, errs (recv_calls s + i))) (seq 0 N)
      /\ local_deliveries t0 = []
      /\ decodings t0 = []
      /\ forall n,
           _stopped (self s) = false ->
           _listen_messages env re (S n) fuel s
           = (Raise (errs (recv_calls s + (N - 1))), s',
              t0 ++ [LogException (errs (recv_calls s + (N - 1)));
                     ClosePubSub]).
Proof.
  intros env re N errs fuel s Hstop HN Hfuel Hfail.
  destruct N as [|m]; [lia|].
  replace (S m - 1) with m by lia.
  set (e := errs (recv_calls s + m)).
  assert (Hpoll :
    iterate fuel (_retry (self s)) 1
      (get_message env (stop_check_interval (self s))) s
    = (Raise e, after_polls env (S m) s,
       failed_polls (self s) errs (recv_calls s) 1 m
       ++ [GetMessage (stop_check_interval (self s)) (inl e);
           LogWarning (S m) e])).
  { replace fuel with (m + S (fuel - S m)) by lia.
    rewrite (iterate_failed_polls env (self s) errs).
    - pose proof (get_message_after_poll env (stop_check_interval (self s))
                    (after_polls env m s)) as Hrun.
      rewrite recv_calls_after_polls, (Nat.add_comm m) in Hrun.
      destruct (Hfail (recv_calls s + m)) as (Henv & Hconn).
      rewrite Henv in Hrun. fold e in Hrun, Hconn.
      rewrite (@iterate_gives_up _ (self s) _ (fuel - S m) (1 + m)
                 (after_polls env m s) _ e _ Hrun Hconn).
      + f_equal. f_equal. clear. revert s.
        induction m as [|m IH]; intros s; [reflexivity|].
        simpl. apply (IH (after_poll env s)).
      + rewrite Hstop. unfold stop_after_attempt. simpl.
        apply Nat.leb_refl.
    - intros i Hi. destruct (Hfail (recv_calls s + i)) as (Henv & Hconn).
      repeat split; try assumption.
      rewrite Hstop. unfold stop_after_attempt. simpl.
      apply Nat.leb_gt. lia. }
  pose proof (listen_iteration_cases env re fuel s) as Hiter.
  rewrite Hpoll in Hiter.
  destruct (failed_polls_observed (self s) errs m (recv_calls s) 1)
    as (Hp & Hr & Hl & Hd).
  eexists. eexists. split; [exact Hiter|].
  rewrite polls_app, length_app, Hp, recv_calls_after_polls,
    reported_failures_app, Hr, local_deliveries_app, Hl, decodings_app, Hd.
  rewrite (seq_S m 0), map_app.
  split; [simpl; lia|]. split; [reflexivity|]. split; [reflexivity|].
  split; [reflexivity|]. split; [reflexivity|].
  intros n Hflag.
  now rewrite (listen_loop_step env re n fuel s Hflag), Hiter.
Qed.

Lemma listener_gives_up_after_N_failed_receives_witness :
  exists s' t0,
    listen_iteration Examples.deaf Codec.reconstitute_event 3
      (Examples.listening Examples.broker_a)
    = (Raise Examples.reset, s',
       t0 ++ [LogException Examples.reset; ClosePubSub])
    /\ List.length (polls t0) = 3
    /\ recv_calls s' = 3
    /\ reported_failures t0
       = [(1, Examples.reset); (2, Examples.reset); (3, Examples.reset)]
    /\ local_deliveries t0 = []
    /\ decodings t0 = []
    /\ forall n,
         _stopped (self (Examples.listening Examples.broker_a)) = false ->
         _listen_messages Examples.deaf Codec.reconstitute_event (S n) 3
           (Examples.listening Examples.broker_a)
         = (Raise Examples.reset, s',
            t0 ++ [LogException Examples.reset; ClosePubSub]).
Proof.
  apply (@listener_gives_up_after_N_failed_receives Examples.deaf
           Codec.reconstitute_event 3 (fun _ => Examples.reset) 3
           (Examples.listening Examples.broker_a)).
  - reflexivity.
  - lia.
  - lia.
  - intros k. split; reflexivity.
Defined.

(** X13: an error raised after the receive, by the decoding or by the
    local event bus, is outside the retry wrapper: even when it is a
    connection error it is not retried and not reported as a failed
    attempt; the iteration has polled once, has handed at most one
    event to the local bus, and it reports the crash, closes the
    subscription and raises the error. *)
Theorem errors_after_the_receive_are_not_retried :
  forall (env : Env) (re : Broker -> bytes -> exn + option Event)
         (fuel : nat) (s : State) (m : Message) (stp : bool)
         (payload : bytes) (e : exn),
    env_get_message env (recv_calls s) = mkRecv (inr (Some m)) stp ->
    data m = DataBytes payload ->
    re (self (after_poll env s)) payload = inl e
    \/ (exists ev,
          re (self (after_poll env s)) payload = inr (Some ev)
          /\ env_publish_local env (local_calls s) = Some e) ->
    exists s' t0,
      listen_iteration env re (S fuel) s
      = (Raise e, s', t0 ++ [LogException e; ClosePubSub])
      /\ polls t0 = [inr (Some m)]
      /\ decodings t0 = [payload]
      /\ reported_failures t0 = []
      /\ waits t0 = []
      /\ List.length (local_deliveries t0) <= 1
      /\ recv_calls s' = S (recv_calls s).
Proof.
  intros env re fuel s m stp payload e Hrecv Hdata Hfail.
  pose proof (get_message_after_poll env (stop_check_interval (self s)) s)
    as Hrun.
  rewrite Hrecv in Hrun. simpl in Hrun.
  pose proof (iterate_returns (self s) _ fuel 1 s Hrun) as Hpoll.
  pose proof (listen_iteration_cases env re (S fuel) s) as Hcases.
  rewrite Hpoll, Hdata in Hcases.
  destruct Hfail as [Hdec | (ev & Hdec & Hlocal)]; rewrite Hdec in Hcases.
  - exists (after_poll env s),
      [GetMessage (stop_check_interval (self s)) (inr (Some m));
       ReconstituteEvent payload].
    split; [exact Hcases|]. simpl. repeat split. lia.
  - change (local_calls (after_poll env s)) with (local_calls s) in Hcases.
    rewrite Hlocal in Hcases.
    exists (after_delivery (after_poll env s)),
      [GetMessage (stop_check_interval (self s)) (inr (Some m));
       ReconstituteEvent payload; PublishLocal ev (Some e)].
    split; [exact Hcases|]. simpl. repeat split. lia.
Qed.

Lemma errors_after_the_receive_are_not_retried_witness :
  exists s' t0,
    listen_iteration (Examples.noisy Examples.broker_a)
      Codec.reconstitute_event 1
      (mkState (self (Examples.listening Examples.broker_b)) 0 0 1 0)
    = (Raise Examples.reset, s',
       t0 ++ [LogException Examples.reset; ClosePubSub])
    /\ polls t0
       = [inr (Some (mkMessage "message" "ev"
                       (DataBytes (Codec.generate_notification
                                     Examples.broker_a Examples.x1))))]
    /\ decodings t0
       = [Codec.generate_notification Examples.broker_a Examples.x1]
    /\ reported_failures t0 = []
    /\ waits t0 = []
    /\ List.length (local_deliveries t0) <= 1
    /\ recv_calls s' = 2.
Proof.
  apply (@errors_after_the_receive_are_not_retried
           (Examples.noisy Examples.broker_a) Codec.reconstitute_event 0
           (mkState (self (Examples.listening Examples.broker_b)) 0 0 1 0)
           (mkMessage "message" "ev"
              (DataBytes (Codec.generate_notification Examples.broker_a
                            Examples.x1)))
           true
           (Codec.generate_notification Examples.broker_a Examples.x1)
           Examples.reset).
  - reflexivity.
  - reflexivity.
  - right. exists Examples.x1. split; reflexivity.
Defined.

(** A listener whose stop flag reads running begins with a receive. *)
Lemma listener_begins_with_a_poll (env : Env)
    (re : Broker -> bytes -> exn + option Event) (n fuel : nat) (s : State) :
  _stopped (self s) = false ->
  exists r2 s2 t2,
    _listen_messages env re (S n) (S fuel) s
    = (r2, s2,
       GetMessage (stop_check_interval (self s))
         (recv_result (env_get_message env (recv_calls s))) :: t2).
Proof.
  intros Hflag.
  assert (Hpoll : exists r s1 t1,
            iterate (S fuel) (_retry (self s)) 1
              (get_message env (stop_check_interval (self s))) s
            = (r, s1,
               GetMessage (stop_check_interval (self s))
                 (recv_result (env_get_message env (recv_calls s))) :: t1)).
  { pose proof (get_message_after_poll env (stop_check_interval (self s)) s)
      as Hrun.
    destruct (recv_result (env_get_message env (recv_calls s))) as [e|m].
    - destruct (is_connection_error e) eqn:Hconn.
      + destruct (stop (retry_settings (self s)) (mkRetryCallState 1 e))
          eqn:Hstop.
        * rewrite (iterate_gives_up (self s) _ fuel 1 s Hrun Hconn Hstop).
          do 3 eexists. reflexivity.
        * rewrite (iterate_tries_again (self s) _ fuel 1 s Hrun Hconn Hstop).
          destruct (iterate fuel _ 2 _ (after_poll env s)) as [[r s2] t2].
          do 3 eexists. reflexivity.
      + rewrite (iterate_rejects (self s) _ fuel 1 s Hrun Hconn).
        do 3 eexists. reflexivity.
    - rewrite (iterate_returns (self s) _ fuel 1 s Hrun).
      do 3 eexists. reflexivity. }
  destruct Hpoll as (r & s1 & t1 & Hpoll).
  assert (Hiter : exists r1 s1' t1',
            listen_iteration env re (S fuel) s
            = (r1, s1',
               GetMessage (stop_check_interval (self s))
                 (recv_result (env_get_message env (recv_calls s))) :: t1')).
  { pose proof (listen_iteration_cases env re (S fuel) s) as Hcases.
    rewrite Hpoll in Hcases.
    destruct r as [[m|]|e|].
    - destruct (data m) as [payload|str|k].
      + destruct (re (self s1) payload) as [e|[ev|]].
        * rewrite Hcases. do 3 eexists. reflexivity.
        * destruct (env_publish_local env (local_calls s1));
            rewrite Hcases; do 3 eexists; reflexivity.
        * rewrite Hcases. do 3 eexists. reflexivity.
      + rewrite Hcases. do 3 eexists. reflexivity.
      + rewrite Hcases. do 3 eexists. reflexivity.
    - rewrite Hcases. do 3 eexists. reflexivity.
    - rewrite Hcases. do 3 eexists. reflexivity.
    - rewrite Hcases. do 3 eexists. reflexivity. }
  destruct Hiter as (r1 & s1' & t1' & Hiter).
  rewrite (listen_loop_step env re n (S fuel) s Hflag), Hiter.
  destruct r1 as [a|e|].
  - destruct (_listen_messages env re n (S fuel) s1') as [[r2 s2] t2].
    do 3 eexists. reflexivity.
  - do 3 eexists. reflexivity.
  - do 3 eexists. reflexivity.
Qed.

(** X14: [start()] clears the stop flag before it launches the
    listener, so the listener it launches does poll: run on the state
    a successful [start()] leaves, the listener begins with a receive
    bounded by the stop check interval of the broker; run on the
    state a failed [start()] leaves, it returns at once without any
    receive. *)
Theorem started_listener_polls :
  forall (env : Env) (re : Broker -> bytes -> exn + option Event)
         (n fuel : nat) (s s1 : State) (r : Outcome unit) (t : list action),
    start env s = (r, s1, t) ->
    match r with
    | Ret _ =>
        exists r2 s2 t2,
          _listen_messages env re (S n) (S fuel) s1
          = (r2, s2,
             GetMessage (stop_check_interval (self s))
               (recv_result (env_get_message env (recv_calls s))) :: t2)
    | _ => _listen_messages env re (S n) (S fuel) s1 = (Ret tt, s1, [])
    end.
Proof.
  intros env re n fuel s s1 r t Hstart.
  unfold start, bind, try_except, super_start, stop_broker, super_stop,
    start_soon, subscribe, get_self, modify_self, emit, raise in Hstart.
  simpl in Hstart.
  destruct (env_subscribe env (sub_calls s)) as [e|]; simpl in Hstart;
    injection Hstart as <- <- <-.
  - now apply listen_loop_stopped.
  - match goal with
    | |- context [_listen_messages _ _ _ _ ?st] =>
        exact (listener_begins_with_a_poll env re n fuel st eq_refl)
    end.
Qed.

Lemma started_listener_polls_witness :
  exists r2 s2 t2,
    _listen_messages Examples.flaky Codec.reconstitute_event 1 1
      (snd (fst (start Examples.flaky (Examples.fresh Examples.broker_a))))
    = (r2, s2, GetMessage 1 (inr None) :: t2).
Proof.
  apply (@started_listener_polls Examples.flaky Codec.reconstitute_event 0 0
           (Examples.fresh Examples.broker_a)
           (snd (fst (start Examples.flaky
                        (Examples.fresh Examples.broker_a))))
           (Ret tt)
           [SuperStart; Subscribe "ev" None; StartSoon "Redis subscriber"]).
  reflexivity.
Defined.

(** X15: the retry policy is the only way out of [publish]: under a
    policy that never stops and a transport whose publish always fails
    with a connection error, [publish(event)] neither returns nor
    raises; within any bound on the attempts it has used them all, each
    with one transport call, one warning and one sleep. *)
Theorem publish_never_ends_without_a_stop_condition :
  forall (env : Env) (gn : Broker -> Event -> bytes) (errs : nat -> exn)
         (ev : Event) (fuel : nat) (s : State),
    stop (retry_settings (self s)) = stop_never ->
    (forall k, env_publish env k = Some (errs k)
               /\ is_connection_error (errs k) = true) ->
    exists s' t,
      publish env gn fuel ev s = (OutOfFuel, s', t)
      /\ List.length (transport_publishes t) = fuel
      /\ List.length (reported_failures t) = fuel
      /\ List.length (waits t) = fuel
      /\ successful_publishes t = [].
Proof.
  intros env gn errs ev fuel s Hstop Hfail.
  unfold publish, bind, get_self, emit. simpl.
  pose proof (@iterate_failed_publishes env (self s) (gn (self s) ev) errs
                fuel 0 1 s) as Hloop.
  rewrite Nat.add_0_r in Hloop. rewrite Hloop.
  - simpl. do 2 eexists. split; [reflexivity|].
    rewrite app_nil_r. simpl.
    rewrite failed_publishes_calls, failed_publishes_reports,
      failed_publishes_waits, failed_publishes_no_success, length_map,
      length_seq.
    repeat split.
  - intros i _. destruct (Hfail (pub_calls s + i)) as (Henv & Hconn).
    repeat split; try assumption. now rewrite Hstop.
Qed.

Lemma publish_never_ends_without_a_stop_condition_witness :
  exists s' t,
    publish Examples.unreachable Codec.generate_notification 7 Examples.x1
      (Examples.fresh Examples.broker_p)
    = (OutOfFuel, s', t)
    /\ List.length (transport_publishes t) = 7
    /\ List.length (reported_failures t) = 7
    /\ List.length (waits t) = 7
    /\ successful_publishes t = [].
Proof.
  apply (@publish_never_ends_without_a_stop_condition Examples.unreachable
           Codec.generate_notification (fun _ => Examples.reset) Examples.x1 7
           (Examples.fresh Examples.broker_p)).
  - reflexivity.
  - intros k. split; reflexivity.
Defined.

Lemma set_stopped_twice (b : Broker) :
  set_stopped true (set_stopped true b) = set_stopped true b.
Proof. reflexivity. Qed.

(** X16: the listener never clears the stop flag and never changes any
    other attribute of the broker: when it ends, the broker object is
    the one it started with, or that one with the flag set by another
    task; and it returns normally only when the flag reads stopped. *)
Theorem listener_returns_only_when_stopped :
  forall (env : Env) (re : Broker -> bytes -> exn + option Event)
         (n fuel : nat) (s : State),
    match _listen_messages env re n fuel s with
    | (r, s', _) =>
        (self s' = self s \/ self s' = set_stopped true (self s))
        /\ forall a, r = Ret a -> _stopped (self s') = true
    end.
Proof.
  intros env re n fuel.
  assert (Hpoll : forall me timeout k attempt s0,
            match iterate k (_retry me) attempt (get_message env timeout) s0
            with
            | (_, s', _) =>
                self s' = self s0 \/ self s' = set_stopped true (self s0)
            end).
  { intros me timeout k attempt s0.
    apply (iterate_poll_ind env me timeout
             (fun _ s1 x =>
                match x with
                | (_, s', _) =>
                    self s' = self s1 \/ self s' = set_stopped true (self s1)
                end)).
    - intros _ s1. now left.
    - intros _ s1 m _. unfold after_poll. simpl.
      destruct (recv_stop _); [now right | now left].
    - intros _ s1 e _ _. unfold after_poll. simpl.
      destruct (recv_stop _); [now right | now left].
    - intros _ s1 e _ _ _. unfold after_poll. simpl.
      destruct (recv_stop _); [now right | now left].
    - intros _ s1 e r s' t _ _ _ IH. unfold after_poll in IH. simpl in IH.
      destruct (recv_stop _); [|exact IH].
      right. destruct IH as [-> | ->]; reflexivity. }
  assert (Hiter : forall s0,
            match listen_iteration env re fuel s0 with
            | (_, s', _) =>
                self s' = self s0 \/ self s' = set_stopped true (self s0)
            end).
  { intros s0.
    pose proof (listen_iteration_cases env re fuel s0) as Hcases.
    specialize (Hpoll (self s0) (stop_check_interval (self s0)) fuel 1 s0).
    destruct (iterate fuel (_retry (self s0)) 1
                (get_message env (stop_check_interval (self s0))) s0)
      as [[[[m|]|e|] s1] t1]; try (rewrite Hcases; exact Hpoll).
    destruct (data m) as [payload|str|k]; try (rewrite Hcases; exact Hpoll).
    destruct (re (self s1) payload) as [e|[ev|]];
      try (rewrite Hcases; exact Hpoll).
    destruct (env_publish_local env (local_calls s1)); rewrite Hcases;
      exact Hpoll. }
  induction n as [|n IH]; intros s.
  - simpl. split; [now left | discriminate].
  - destruct (_stopped (self s)) eqn:Hflag.
    + rewrite (listen_loop_stopped env re n fuel s Hflag).
      split; [now left | intros _ _; exact Hflag].
    + rewrite (listen_loop_step env re n fuel s Hflag).
      specialize (Hiter s).
      destruct (listen_iteration env re fuel s) as [[[a|e|] s1] t1].
      * specialize (IH s1).
        destruct (_listen_messages env re n fuel s1) as [[r s2] t2].
        destruct IH as (Hself & Hret). split; [|exact Hret].
        destruct Hiter as [H1 | H1]; destruct Hself as [H2 | H2];
          rewrite H2, H1; auto.
      * split; [exact Hiter | discriminate].
      * split; [exact Hiter | discriminate].
Qed.
